(** * Role-hierarchy explorer: the recursive grant query, the Flask route
      that serves it, and the Qt fetch worker that consumes it.

    Source: [user_role_hierarchy3.py].

    Modelling conventions.
    - Python [str] values are Rocq [string]s, read as the bytes of their
      UTF-8 encoding.  [PyStr] defines [str.strip], [str.upper],
      [str.lower] and the [in] operator as they behave on ASCII text;
      [Unicode] takes [strip] and [upper] as given, for text of any
      characters, and repeats with them the two functions that
      normalise a name.
    - The two Snowflake views read by the query are lists of records; the
      recursive common table expression is evaluated by the usual iteration
      over a working table.
    - Calls to the Snowflake driver are recorded in a trace, and each call
      can raise; the route is a computation in a small writer/exception
      monad.
    - The worker reads its [_is_running] attribute at several program
      points; the value seen at the k-th read is given by a function.
    - The main window is a record of the widgets its slots read and
      write; a slot returns the new window and what it did besides
      (message boxes, clipboard, file, worker started). *)

From Stdlib Require Import List String Ascii Bool Arith Lia Sorted Permutation.
From Stdlib Require Import OrderedTypeEx.
Import ListNotations.
Open Scope string_scope.
Open Scope list_scope.
Open Scope nat_scope.

(* ================================================================== *)
(** ** Python string operations *)

Module PyStr.

(** [c.isspace()] on the ASCII range: TAB..CR, FS..US and the blank. *)
Definition isspace (c : ascii) : bool :=
  let n := nat_of_ascii c in
  ((9 <=? n) && (n <=? 13)) || ((28 <=? n) && (n <=? 32)).

Fixpoint lstrip (s : string) : string :=
  match s with
  | EmptyString => EmptyString
  | String c r => if isspace c then lstrip r else s
  end.

Fixpoint rstrip (s : string) : string :=
  match s with
  | EmptyString => EmptyString
  | String c r =>
      match rstrip r with
      | EmptyString => if isspace c then EmptyString else String c EmptyString
      | r' => String c r'
      end
  end.

(** [s.strip()], for ASCII text *)
Definition strip (s : string) : string := rstrip (lstrip s).

Definition upper_char (c : ascii) : ascii :=
  let n := nat_of_ascii c in
  if (97 <=? n) && (n <=? 122) then ascii_of_nat (n - 32) else c.

Definition lower_char (c : ascii) : ascii :=
  let n := nat_of_ascii c in
  if (65 <=? n) && (n <=? 90) then ascii_of_nat (n + 32) else c.

Fixpoint map_chars (f : ascii -> ascii) (s : string) : string :=
  match s with
  | EmptyString => EmptyString
  | String c r => String (f c) (map_chars f r)
  end.

(** [s.upper()] and [s.lower()], for ASCII text *)
Definition upper : string -> string := map_chars upper_char.
Definition lower : string -> string := map_chars lower_char.

(** [needle in hay] for two strings. *)
Fixpoint str_in (needle hay : string) : bool :=
  if String.prefix needle hay then true
  else match hay with
       | EmptyString => false
       | String _ r => str_in needle r
       end.

(** Every character is whitespace. *)
Fixpoint all_space (s : string) : bool :=
  match s with
  | EmptyString => true
  | String c r => isspace c && all_space r
  end.

Definition starts_with_space (s : string) : bool :=
  match s with
  | EmptyString => false
  | String c _ => isspace c
  end.

Fixpoint ends_with_space (s : string) : bool :=
  match s with
  | EmptyString => false
  | String c EmptyString => isspace c
  | String _ r => ends_with_space r
  end.

End PyStr.

(* ================================================================== *)
(** ** The grant store and the recursive query [cte_query] *)

Module Cte.

(** A row of [snowflake.account_usage.grants_to_users]. *)
Record gtu_row := {
  gtu_GRANTEE_NAME : string;
  gtu_ROLE : string;
  gtu_DELETED_ON : option string
}.

(** A row of [snowflake.account_usage.grants_to_roles]. *)
Record gtr_row := {
  gtr_GRANTEE_NAME : string;
  gtr_NAME : string;
  gtr_PRIVILEGE : string;
  gtr_GRANTED_ON : string;
  gtr_DELETED_ON : option string
}.

Record grant_store := {
  grants_to_users : list gtu_row;
  grants_to_roles : list gtr_row
}.

(** A row of the recursive relation [user_role_hierarchy]. *)
Record urh_row := {
  level : nat;
  role_name : string;
  granted_via_type : string;
  granted_via_name : string;
  path_string : string
}.

Definition is_null {A} (o : option A) : bool :=
  match o with None => true | Some _ => false end.

(** Anchor member: roles granted directly to the user. *)
Definition anchor_where (p : string) (gtu : gtu_row) : bool :=
  (gtu_GRANTEE_NAME gtu =? p)%string && is_null (gtu_DELETED_ON gtu).

Definition anchor_select (gtu : gtu_row) : urh_row :=
  {| level := 0;
     role_name := gtu_ROLE gtu;
     granted_via_type := "USER";
     granted_via_name := gtu_GRANTEE_NAME gtu;
     path_string := gtu_ROLE gtu |}.

Definition anchor_member (st : grant_store) (p : string) : list urh_row :=
  map anchor_select (filter (anchor_where p) (grants_to_users st)).

(** Recursive member: roles granted to the roles of the previous
    iteration. *)
Definition recursive_on (gtr : gtr_row) (urh : urh_row) : bool :=
  (gtr_GRANTEE_NAME gtr =? role_name urh)%string.

Definition recursive_where (gtr : gtr_row) (urh : urh_row) : bool :=
  (gtr_PRIVILEGE gtr =? "USAGE")%string
  && (gtr_GRANTED_ON gtr =? "ROLE")%string
  && is_null (gtr_DELETED_ON gtr)
  && (level urh <? 20).

Definition recursive_select (gtr : gtr_row) (urh : urh_row) : urh_row :=
  {| level := level urh + 1;
     role_name := gtr_NAME gtr;
     granted_via_type := "ROLE";
     granted_via_name := gtr_GRANTEE_NAME gtr;
     path_string := (path_string urh ++ " -> " ++ gtr_NAME gtr)%string |}.

Definition recursive_member (st : grant_store) (working : list urh_row)
  : list urh_row :=
  flat_map
    (fun gtr =>
       map (recursive_select gtr)
           (filter (fun urh => recursive_on gtr urh && recursive_where gtr urh)
                   working))
    (grants_to_roles st).

(** Evaluation of [WITH RECURSIVE ... UNION ALL]: the working table starts
    as the anchor member; the recursive member is applied to the working
    table until it produces no row, and every working table is appended
    to the result. *)
Inductive cte_eval (st : grant_store) : list urh_row -> list urh_row -> Prop :=
| cte_done : cte_eval st [] []
| cte_step : forall working rest,
    working <> [] ->
    cte_eval st (recursive_member st working) rest ->
    cte_eval st working (working ++ rest).

(** The same iteration as a function; [fuel] bounds the number of
    non-empty working tables. *)
Fixpoint iterate (st : grant_store) (fuel : nat) (working : list urh_row)
  : list urh_row :=
  match working with
  | [] => []
  | _ :: _ =>
      match fuel with
      | 0 => []
      | S fuel' => working ++ iterate st fuel' (recursive_member st working)
      end
  end.

(** Levels run from 0 to 20, so 21 working tables can be non-empty. *)
Definition user_role_hierarchy (st : grant_store) (p : string) : list urh_row :=
  iterate st 21 (anchor_member st p).

(** [ORDER BY path_string]: insertion by byte-wise string comparison. *)
Fixpoint order_insert (r : urh_row) (rows : list urh_row) : list urh_row :=
  match rows with
  | [] => [r]
  | r' :: rest =>
      if (path_string r <=? path_string r')%string then r :: rows
      else r' :: order_insert r rest
  end.

Fixpoint order_by_path_string (rows : list urh_row) : list urh_row :=
  match rows with
  | [] => []
  | r :: rest => order_insert r (order_by_path_string rest)
  end.

(** A row of the final [SELECT]. *)
Definition result_row : Type := (nat * string * string * string * string)%type.

Fixpoint spaces (n : nat) : string :=
  match n with
  | 0 => EmptyString
  | S n' => String " " (spaces n')
  end.

Definition final_select (urh : urh_row) : result_row :=
  (level urh,
   (spaces (level urh * 4) ++ role_name urh)%string,
   granted_via_type urh,
   granted_via_name urh,
   path_string urh).

(** The rows [cur.fetchall()] returns for [cur.execute(cte_query, (p,))]. *)
Definition cte_query (st : grant_store) (p : string) : list result_row :=
  map final_select (order_by_path_string (user_role_hierarchy st p)).

(** [row[4]] *)
Definition row_4 (r : result_row) : string := snd r.

(** *** Path strings as sequences of segments *)

Definition separator : string := " -> ".

(** The path string of a chain of role names. *)
Definition join_path (segments : list string) : string :=
  String.concat separator segments.

(** Cutting a path string at each occurrence of the separator, scanning
    from the left; [cur] holds the characters of the current segment in
    reverse, [skip] the separator characters still to be passed over. *)
Fixpoint rev_string (acc s : string) : string :=
  match s with
  | EmptyString => acc
  | String c r => rev_string (String c acc) r
  end.

Fixpoint split_from (cur : string) (skip : nat) (s : string) : list string :=
  match s with
  | EmptyString => [rev_string EmptyString cur]
  | String c r =>
      match skip with
      | S k => split_from cur k r
      | 0 =>
          if String.prefix separator s
          then rev_string EmptyString cur :: split_from EmptyString 3 r
          else split_from (String c cur) 0 r
      end
  end.

Definition split_path (path : string) : list string :=
  split_from EmptyString 0 path.

Definition count_segments (path : string) : nat :=
  List.length (split_path path).

(** The path string made of the first [k] segments of [path]. *)
Definition path_prefix (k : nat) (path : string) : string :=
  join_path (firstn k (split_path path)).

(** [r] is produced by the recursive member from the row [u]. *)
Definition child_of (st : grant_store) (u r : urh_row) : Prop :=
  exists gtr,
    In gtr (grants_to_roles st)
    /\ recursive_on gtr u = true
    /\ recursive_where gtr u = true
    /\ r = recursive_select gtr u.

(** Every row of a working table has the same level. *)
Definition at_level (n : nat) (rows : list urh_row) : Prop :=
  Forall (fun r => level r = n) rows.

(** A list of strings in ascending byte-wise order. *)
Definition sorted_paths (paths : list string) : Prop :=
  StronglySorted (fun a b => (a <=? b)%string = true) paths.

End Cte.

(* ================================================================== *)
(** ** JSON values, as [jsonify] writes them and [response.json()] reads
       them *)

#[local] Set Warnings "-register-all".

Inductive json : Type :=
| JNull
| JBool (b : bool)
| JNumber (literal : string)
| JString (s : string)
| JList (items : list json)
| JDict (items : list (string * json)).

(* ================================================================== *)
(** ** The Flask route [get_role_hierarchy_route] *)

Module Backend.

Import PyStr Cte.

(** Exceptions, by the [except] clause that catches them; the string is
    [str(e)]. *)
Inductive exn : Type :=
| ProgrammingError (detail : string)
| ValueError (detail : string)
| OtherException (detail : string).

(** Calls made to the Snowflake driver. *)
Inductive driver_call : Type :=
| Connect
| Cursor
| Execute (param : string)
| Fetchall
| CursorClose
| ConnectionClose.

Record event := { call : driver_call; completed : bool }.

(** The driver during one request: the tables the query reads, and for
    each call the exception it raises, if any. *)
Record driver := {
  store : grant_store;
  connect_raises : option exn;
  cursor_raises : option exn;
  execute_raises : option exn;
  fetchall_raises : option exn;
  cursor_close_raises : option exn;
  connection_close_raises : option exn
}.

Inductive outcome (A : Type) : Type :=
| Normal (a : A)
| Raised (e : exn).
Arguments Normal {A} a.
Arguments Raised {A} e.

(** Computations that log driver calls and may raise. *)
Definition M (A : Type) : Type := (list event * outcome A)%type.

Definition ret {A} (a : A) : M A := ([], Normal a).

Definition bind {A B} (m : M A) (f : A -> M B) : M B :=
  match m with
  | (t, Normal a) => let (t', r) := f a in (t ++ t', r)
  | (t, Raised e) => (t, Raised e)
  end.

Notation "x <- m ;; k" := (bind m (fun x => k))
  (at level 61, m at next level, right associativity).
Notation "m ;;; k" := (bind m (fun _ => k))
  (at level 61, right associativity).

Definition invoke (c : driver_call) (raises : option exn) : M unit :=
  match raises with
  | None => ([ {| call := c; completed := true |} ], Normal tt)
  | Some e => ([ {| call := c; completed := false |} ], Raised e)
  end.

(** [try: body finally: cleanup]: the cleanup always runs; when it raises,
    its exception replaces the outcome of the body. *)
Definition try_finally {A} (body : M A) (cleanup : M unit) : M A :=
  let (t, r) := body in
  match cleanup with
  | (t', Normal _) => (t ++ t', r)
  | (t', Raised e) => (t ++ t', Raised e)
  end.

(** A response: the JSON body and the HTTP status. *)
Definition response : Type := (json * nat)%type.

Definition jsonify_strings (l : list string) : json := JList (map JString l).

Definition jsonify_error (error : string) (details : option string) : json :=
  match details with
  | None => JDict [("error", JString error)]
  | Some d => JDict [("error", JString error); ("details", JString d)]
  end.

Definition missing_parameter : response :=
  (jsonify_error "Missing 'user_name' parameter" None, 400).

Definition no_hierarchy_message (user_name_param : string) : string :=
  ("No role hierarchy found for user '" ++ user_name_param
   ++ "'. User may not exist, have no roles, or grants are not visible.")%string.

(** The body of the inner [try]: either the early [return] of the
    one-message response, or [grant_chains] once the loop has run. *)
Definition inner_body (d : driver) (user_name_param user_name_upper : string)
  : M (response + list string) :=
  invoke (Execute user_name_upper) (execute_raises d) ;;;
  invoke Fetchall (fetchall_raises d) ;;;
  let results := cte_query (store d) user_name_upper in
  match results with
  | [] => ret (inl (jsonify_strings [no_hierarchy_message user_name_param], 200))
  | _ :: _ => ret (inr (map row_4 results))
  end.

Definition inner_finally (d : driver) : M unit :=
  invoke CursorClose (cursor_close_raises d) ;;;
  invoke ConnectionClose (connection_close_raises d).

(** The outer [try] block. *)
Definition try_block (d : driver) (user_name_param user_name_upper : string)
  : M response :=
  invoke Connect (connect_raises d) ;;;
  invoke Cursor (cursor_raises d) ;;;
  r <- try_finally (inner_body d user_name_param user_name_upper)
                   (inner_finally d) ;;
  match r with
  | inl early => ret early
  | inr grant_chains => ret (jsonify_strings grant_chains, 200)
  end.

(** The [except] clauses. *)
Definition except_clauses (user_name_param : string) (e : exn) : response :=
  match e with
  | ProgrammingError error_detail =>
      if str_in "object does not exist or not authorized" (lower error_detail)
      then (jsonify_error
              ("User '" ++ user_name_param
               ++ "' may not exist, or the connecting role lacks permissions to view its grants or the ACCOUNT_USAGE schema.")%string
              (Some error_detail), 404)
      else if str_in "connection_name" (lower error_detail)
              && str_in "not found" (lower error_detail)
      then (jsonify_error
              "Snowflake connection name 'bsabwew-sj64889' not found. Please configure it in ~/.snowflake/connections.toml"
              (Some error_detail), 500)
      else (jsonify_error
              "Error querying Snowflake for role hierarchy (CTE)."
              (Some error_detail), 500)
  | ValueError detail =>
      (jsonify_error
         "Server configuration error (e.g., Snowflake connection)."
         (Some detail), 500)
  | OtherException detail =>
      (jsonify_error
         "An unexpected error occurred on the server while fetching role hierarchy (CTE)."
         (Some detail), 500)
  end.

(** The route: the driver calls it made, and its response. *)
Definition get_role_hierarchy_route (d : driver) (user_name_param : option string)
  : list event * response :=
  match user_name_param with
  | None => ([], missing_parameter)
  | Some EmptyString => ([], missing_parameter)
  | Some p =>
      let user_name_upper := upper (strip p) in
      match try_block d p user_name_upper with
      | (t, Normal resp) => (t, resp)
      | (t, Raised e) => (t, except_clauses p e)
      end
  end.

(** A driver that raises nowhere. *)
Definition healthy (st : grant_store) : driver :=
  {| store := st;
     connect_raises := None;
     cursor_raises := None;
     execute_raises := None;
     fetchall_raises := None;
     cursor_close_raises := None;
     connection_close_raises := None |}.

(** The connection was opened / was closed during the request. *)
Definition opened (t : list event) : Prop :=
  In {| call := Connect; completed := true |} t.

Definition released (t : list event) : Prop :=
  In {| call := ConnectionClose; completed := true |} t.

(** The exception that leaves the outer [try] block, if any. *)
Definition raised_in_try (d : driver) (user_name_param : string) : option exn :=
  match try_block d user_name_param (upper (strip user_name_param)) with
  | (_, Raised e) => Some e
  | (_, Normal _) => None
  end.

(** The calls of a request on which nothing raises. *)
Definition healthy_trace (user_name_upper : string) : list event :=
  map (fun c => {| call := c; completed := true |})
      [Connect; Cursor; Execute user_name_upper; Fetchall; CursorClose;
       ConnectionClose].

(** [t] is [p] without the whitespace around it. *)
Definition trimmed (p t : string) : Prop :=
  exists l r,
    all_space l = true /\ all_space r = true
    /\ p = (l ++ t ++ r)%string
    /\ starts_with_space t = false
    /\ ends_with_space t = false.


End Backend.

(* ================================================================== *)
(** ** The Qt worker [FetchWorker] *)

Module Worker.

Import PyStr.

(** Why [response.json()] fails: [requests] raises its own
    [JSONDecodeError], which is both a [RequestException] and a
    [ValueError]; older releases raise a plain [ValueError]; and on a
    body nested too deeply the decoder raises [RecursionError], which is
    neither. *)
Inductive decode_failure : Type :=
| PlainValueError (msg : string)
| RequestsJSONDecodeError (msg : string)
| DecodeRecursionError.

Record http_response := {
  status_code : nat;
  reason : string;
  json_of : json + decode_failure
}.

(** What [requests.get(..., timeout=45)] does. *)
Inductive get_result : Type :=
| GetTimeout (msg : string)
| GetRequestException (msg : string)
| GetResponse (r : http_response).

Inductive exn : Type :=
| Timeout (msg : string)
| HTTPError (r : http_response)
| RequestException (msg : string)
| JSONDecodeError (msg : string)
| ValueError (msg : string)
| TypeError
| AttributeError
| RecursionError.

(** Pieces of an f-string: literal text, [str(v)] of a parsed value, and
    an integer in decimal. *)
Inductive fragment : Type :=
| Text (s : string)
| Str (v : json)
| Int (n : nat).

Definition message : Type := list fragment.

Inductive signal : Type :=
| data_ready (data : list json)
| error_occurred (error_message : message).

Inductive completion : Type :=
| Returned
| Escaped (e : exn).

(** [response.raise_for_status()] *)
Definition raise_for_status (r : http_response) : option exn :=
  if (400 <=? status_code r) && (status_code r <? 600)
  then Some (HTTPError r) else None.

Definition exn_of_decode_failure (f : decode_failure) : exn :=
  match f with
  | PlainValueError msg => ValueError msg
  | RequestsJSONDecodeError msg => JSONDecodeError msg
  | DecodeRecursionError => RecursionError
  end.

Fixpoint dict_lookup (key : string) (items : list (string * json)) : option json :=
  match items with
  | [] => None
  | (k, v) :: rest => if (k =? key)%string then Some v else dict_lookup key rest
  end.

Definition is_key (key : string) (items : list (string * json)) : bool :=
  match dict_lookup key items with Some _ => true | None => false end.

(** [key in v] for a parsed value [v]. *)
Definition py_in (key : string) (v : json) : bool + exn :=
  match v with
  | JDict items => inl (is_key key items)
  | JList items =>
      inl (existsb (fun x => match x with
                             | JString s => (s =? key)%string
                             | _ => false
                             end) items)
  | JString s => inl (str_in key s)
  | JNull | JBool _ | JNumber _ => inr TypeError
  end.

(** [v.get(key)] and [v.get(key, default)] *)
Definition py_get (v : json) (key : string) (default : json) : json + exn :=
  match v with
  | JDict items =>
      inl (match dict_lookup key items with Some x => x | None => default end)
  | _ => inr AttributeError
  end.

Definition timeout_message : message :=
  [Text "The request timed out. Please check the backend server or query complexity."].

Definition unexpected_format_message : message :=
  [Text "Received unexpected data format from the server."].

Definition backend_error_message (items : list (string * json)) : message :=
  [Text "Backend error: ";
   Str (match dict_lookup "error" items with Some x => x | None => JNull end);
   Text " (Details: ";
   Str (match dict_lookup "details" items with
        | Some x => x
        | None => JString "N/A"
        end);
   Text ")"].

Definition fetch_error_message (e : string) : message :=
  [Text "Error fetching data: "; Text e;
   Text ". Is the backend server running correctly?"].

Definition decode_error_message (e : string) : message :=
  [Text "Error decoding JSON response: "; Text e].

(** The part of the [HTTPError] handler that extends [error_message] from
    the body of the response; [inr e] when [e] leaves the inner [try]. *)
Definition append_details (error_message : message) (err_details : json)
  : message + exn :=
  match py_in "error" err_details with
  | inr e => inr e
  | inl has_error =>
      match (if has_error
             then match py_get err_details "error" JNull with
                  | inl x => inl (error_message ++ [Text " - "; Str x])
                  | inr e => inr e
                  end
             else inl error_message) with
      | inr e => inr e
      | inl error_message1 =>
          match py_in "details" err_details with
          | inr e => inr e
          | inl has_details =>
              if has_details
              then match py_get err_details "details" JNull with
                   | inl x =>
                       inl (error_message1 ++ [Text " (Details: "; Str x; Text ")"])
                   | inr e => inr e
                   end
              else inl error_message1
          end
      end
  end.

Definition http_error_message (r : http_response) : message + exn :=
  let error_message :=
    [Text "HTTP error: "; Int (status_code r); Text " "; Text (reason r)] in
  match json_of r with
  | inr (PlainValueError _) => inl error_message
  | inr (RequestsJSONDecodeError _) => inl error_message
  | inr DecodeRecursionError => inr RecursionError
  | inl err_details => append_details error_message err_details
  end.

(** The body of the [try]; [reads] counts the reads of [_is_running] made
    so far.  The result holds the signals emitted, the number of reads,
    and the exception raised, if any. *)
Definition try_body (running : nat -> bool) (net : get_result)
  : list signal * nat * option exn :=
  match net with
  | GetTimeout msg => ([], 1, Some (Timeout msg))
  | GetRequestException msg => ([], 1, Some (RequestException msg))
  | GetResponse response =>
      match raise_for_status response with
      | Some e => ([], 1, Some e)
      | None =>
          if negb (running 1) then ([], 2, None)
          else
            match json_of response with
            | inr f => ([], 2, Some (exn_of_decode_failure f))
            | inl (JList data) => ([data_ready data], 2, None)
            | inl (JDict items) =>
                if is_key "error" items
                then ([error_occurred (backend_error_message items)], 2, None)
                else ([error_occurred unexpected_format_message], 2, None)
            | inl _ => ([error_occurred unexpected_format_message], 2, None)
            end
      end
  end.

(** The [except] clauses, tried in order; [reads] is the index of the next
    read of [_is_running]. *)
Definition except_clauses (running : nat -> bool) (reads : nat) (e : exn)
  : list signal * completion :=
  match e with
  | Timeout _ =>
      if running reads then ([error_occurred timeout_message], Returned)
      else ([], Returned)
  | HTTPError r =>
      if running reads then
        match http_error_message r with
        | inl error_message => ([error_occurred error_message], Returned)
        | inr e' => ([], Escaped e')
        end
      else ([], Returned)
  | RequestException msg | JSONDecodeError msg =>
      if running reads then ([error_occurred (fetch_error_message msg)], Returned)
      else ([], Returned)
  | ValueError msg =>
      if running reads then ([error_occurred (decode_error_message msg)], Returned)
      else ([], Returned)
  | TypeError | AttributeError | RecursionError => ([], Escaped e)
  end.

(** [FetchWorker.run]; [running k] is the value of [self._is_running] at
    its k-th read (it is [False] once [stop] has been called). *)
Definition run (running : nat -> bool) (net : get_result)
  : list signal * completion :=
  if negb (running 0) then ([], Returned)
  else
    match try_body running net with
    | (emitted, _, None) => (emitted, Returned)
    | (emitted, reads, Some e) =>
        let (emitted', c) := except_clauses running reads e in
        (emitted ++ emitted', c)
    end.

Definition never_stopped : nat -> bool := fun _ => true.

(** The body of a response can be read: decoding it does not raise
    [RecursionError], and the response is no HTTP error or the message
    of the [HTTPError] handler can be built. *)
Definition error_body_readable (net : get_result) : Prop :=
  match net with
  | GetResponse r =>
      json_of r <> inr DecodeRecursionError
      /\ (raise_for_status r = None \/ exists m, http_error_message r = inl m)
  | _ => True
  end.

End Worker.

(* ================================================================== *)
(** ** Concrete stores, drivers and responses *)

Module Scenarios.

Import Cte Backend Worker.

(** ALICE holds ANALYST, and ANALYST holds READER. *)
Definition store_A : grant_store :=
  {| grants_to_users :=
       [ {| gtu_GRANTEE_NAME := "ALICE"; gtu_ROLE := "ANALYST";
            gtu_DELETED_ON := None |} ];
     grants_to_roles :=
       [ {| gtr_GRANTEE_NAME := "ANALYST"; gtr_NAME := "READER";
            gtr_PRIVILEGE := "USAGE"; gtr_GRANTED_ON := "ROLE";
            gtr_DELETED_ON := None |} ] |}.

(** Roles R00, R01, ... *)
Definition role_of (i : nat) : string :=
  String "R" (String (ascii_of_nat (48 + i / 10))
                     (String (ascii_of_nat (48 + i mod 10)) EmptyString)).

(** ALICE holds R00, and each of the roles R00 .. R(n-1) holds the next. *)
Definition chain_store (n : nat) : grant_store :=
  {| grants_to_users :=
       [ {| gtu_GRANTEE_NAME := "ALICE"; gtu_ROLE := role_of 0;
            gtu_DELETED_ON := None |} ];
     grants_to_roles :=
       map (fun i => {| gtr_GRANTEE_NAME := role_of i;
                        gtr_NAME := role_of (i + 1);
                        gtr_PRIVILEGE := "USAGE"; gtr_GRANTED_ON := "ROLE";
                        gtr_DELETED_ON := None |})
           (seq 0 n) |}.

(** A chain of the 22 roles R00 .. R21. *)
Definition deep_store : grant_store := chain_store 21.

(** R00 -> R01 -> ... -> R20 *)
Definition deep_path : string := join_path (map role_of (seq 0 21)).

(** [connect] succeeds, then [connection.cursor()] raises. *)
Definition cursor_fails : driver :=
  {| store := store_A;
     connect_raises := None;
     cursor_raises := Some (OtherException "Connection is closed");
     execute_raises := None;
     fetchall_raises := None;
     cursor_close_raises := None;
     connection_close_raises := None |}.

(** [cur.close()] raises in the [finally] clause. *)
Definition cursor_close_fails : driver :=
  {| store := store_A;
     connect_raises := None;
     cursor_raises := None;
     execute_raises := None;
     fetchall_raises := None;
     cursor_close_raises := Some (OtherException "Failed to close cursor");
     connection_close_raises := None |}.

(** [cur.execute] raises the [ProgrammingError] Snowflake reports for a
    view the connecting role may not read; the view is named in it. *)
Definition access_denied : driver :=
  {| store := store_A;
     connect_raises := None;
     cursor_raises := None;
     execute_raises :=
       Some (ProgrammingError
               "SQL compilation error: Object 'SNOWFLAKE.ACCOUNT_USAGE.GRANTS_TO_USERS' does not exist or not authorized.");
     fetchall_raises := None;
     cursor_close_raises := None;
     connection_close_raises := None |}.

(** [cur.execute] raises a [ProgrammingError] with the phrase the route
    looks for. *)
Definition object_hidden : driver :=
  {| store := store_A;
     connect_raises := None;
     cursor_raises := None;
     execute_raises :=
       Some (ProgrammingError
               "SQL compilation error: Object does not exist or not authorized.");
     fetchall_raises := None;
     cursor_close_raises := None;
     connection_close_raises := None |}.

(** Status 500 with the JSON body [null]. *)
Definition error_with_null_body : get_result :=
  GetResponse {| status_code := 500; reason := "INTERNAL SERVER ERROR";
                 json_of := inl JNull |}.

(** Status 200 with the JSON body [{"error": "boom"}]. *)
Definition ok_with_error_object : http_response :=
  {| status_code := 200; reason := "OK";
     json_of := inl (JDict [("error", JString "boom")]) |}.

(** Status 200 with the JSON body [["ANALYST", "ANALYST -> READER"]]. *)
Definition ok_with_paths : http_response :=
  {| status_code := 200; reason := "OK";
     json_of := inl (JList [JString "ANALYST"; JString "ANALYST -> READER"]) |}.

(** Status 200 with a body nested so deeply that decoding it raises
    [RecursionError]. *)
Definition body_nested_too_deeply : get_result :=
  GetResponse {| status_code := 200; reason := "OK";
                 json_of := inr DecodeRecursionError |}.

(** [stop] is called while the request is in flight. *)
Definition stopped_in_flight : nat -> bool :=
  fun k => match k with 0 => true | S _ => false end.

End Scenarios.

(* ================================================================== *)
(** ** Stores compared *)

Module Stores.

Import PyStr Cte.

(** The grants the query can use: direct grants that are not deleted, and
    role grants of USAGE on a ROLE that are not deleted. *)
Definition live_gtu (gtu : gtu_row) : bool := is_null (gtu_DELETED_ON gtu).

Definition live_gtr (gtr : gtr_row) : bool :=
  (gtr_PRIVILEGE gtr =? "USAGE")%string
  && (gtr_GRANTED_ON gtr =? "ROLE")%string
  && is_null (gtr_DELETED_ON gtr).

Definition live_store (st : grant_store) : grant_store :=
  {| grants_to_users := filter live_gtu (grants_to_users st);
     grants_to_roles := filter live_gtr (grants_to_roles st) |}.

(** Two stores hold the same rows, in any order. *)
Definition same_rows (st st' : grant_store) : Prop :=
  Permutation (grants_to_users st) (grants_to_users st')
  /\ Permutation (grants_to_roles st) (grants_to_roles st').

(** Some character is a lower-case ASCII letter. *)
Fixpoint has_lower (s : string) : bool :=
  match s with
  | EmptyString => false
  | String c r =>
      let n := nat_of_ascii c in
      ((97 <=? n) && (n <=? 122)) || has_lower r
  end.

(** [store_A] with the role grant listed before a deleted copy of it and
    the tables otherwise unchanged. *)
Definition store_A_with_history : grant_store :=
  {| grants_to_users :=
       [ {| gtu_GRANTEE_NAME := "ALICE"; gtu_ROLE := "AUDITOR";
            gtu_DELETED_ON := Some "2024-01-31 09:00:00" |};
         {| gtu_GRANTEE_NAME := "ALICE"; gtu_ROLE := "ANALYST";
            gtu_DELETED_ON := None |} ];
     grants_to_roles :=
       [ {| gtr_GRANTEE_NAME := "ANALYST"; gtr_NAME := "READER";
            gtr_PRIVILEGE := "USAGE"; gtr_GRANTED_ON := "ROLE";
            gtr_DELETED_ON := None |};
         {| gtr_GRANTEE_NAME := "ANALYST"; gtr_NAME := "SALES_DB";
            gtr_PRIVILEGE := "OWNERSHIP"; gtr_GRANTED_ON := "DATABASE";
            gtr_DELETED_ON := None |} ] |}.

(** ALICE holds two roles that both hold READER. *)
Definition diamond_store : grant_store :=
  {| grants_to_users :=
       [ {| gtu_GRANTEE_NAME := "ALICE"; gtu_ROLE := "B";
            gtu_DELETED_ON := None |};
         {| gtu_GRANTEE_NAME := "ALICE"; gtu_ROLE := "A";
            gtu_DELETED_ON := None |} ];
     grants_to_roles :=
       [ {| gtr_GRANTEE_NAME := "B"; gtr_NAME := "READER";
            gtr_PRIVILEGE := "USAGE"; gtr_GRANTED_ON := "ROLE";
            gtr_DELETED_ON := None |};
         {| gtr_GRANTEE_NAME := "A"; gtr_NAME := "READER";
            gtr_PRIVILEGE := "USAGE"; gtr_GRANTED_ON := "ROLE";
            gtr_DELETED_ON := None |} ] |}.

(** The same rows, each table in the opposite order. *)
Definition diamond_store_reversed : grant_store :=
  {| grants_to_users := rev (grants_to_users diamond_store);
     grants_to_roles := rev (grants_to_roles diamond_store) |}.

(** Two roles that hold each other. *)
Definition cyclic_store : grant_store :=
  {| grants_to_users :=
       [ {| gtu_GRANTEE_NAME := "ALICE"; gtu_ROLE := "A";
            gtu_DELETED_ON := None |} ];
     grants_to_roles :=
       [ {| gtr_GRANTEE_NAME := "A"; gtr_NAME := "B";
            gtr_PRIVILEGE := "USAGE"; gtr_GRANTED_ON := "ROLE";
            gtr_DELETED_ON := None |};
         {| gtr_GRANTEE_NAME := "B"; gtr_NAME := "A";
            gtr_PRIVILEGE := "USAGE"; gtr_GRANTED_ON := "ROLE";
            gtr_DELETED_ON := None |} ] |}.

End Stores.

(* ================================================================== *)
(** ** The route's answer as the worker receives it *)

Module Wire.

Import Backend Worker.

(** [str(e)] *)
Definition str_exn (e : Backend.exn) : string :=
  match e with
  | ProgrammingError detail => detail
  | Backend.ValueError detail => detail
  | OtherException detail => detail
  end.

(** Flask sends the body and the status of a response; [requests] hands
    them to the worker, and [response.json()] reads the body back.  The
    reason phrase is chosen by the server. *)
Definition served (resp : response) (reason_phrase : string) : get_result :=
  GetResponse {| status_code := snd resp;
                 reason := reason_phrase;
                 json_of := inl (fst resp) |}.

(** One exchange: the worker asks for [user_name], the route answers. *)
Definition exchange (d : driver) (reason_phrase : string) (user_name : string)
  : get_result :=
  served (snd (get_role_hierarchy_route d (Some user_name))) reason_phrase.

End Wire.

(* ================================================================== *)
(** ** The main window [SnowflakeViewerApp] *)

Module Client.

Import PyStr Worker.

Definition BACKEND_API_BASE_URL : string := "http://127.0.0.1:5001".

(** A [FetchWorker] as the window sees it. *)
Record worker_object := {
  full_api_url : string;
  params_user_name : string;
  isRunning : bool;
  _is_running : bool
}.

(** The widgets the slots read and write.  A row of the table holds the
    text of its item in column 0, or nothing when no item was set. *)
Record window := {
  user_name_input : string;
  table_widget : list (option string);
  fetch_button : bool;
  copy_button : bool;
  save_action : bool;
  status_bar : message;
  fetch_worker : option worker_object
}.

(** What a slot does besides changing widgets. *)
Inductive effect : Type :=
| WarningBox (title text : string)
| CriticalBox (title : string) (text : message)
| ClipboardSet (text : string)
| SaveDialog (caption default_filename : string)
| FileWritten (file_path content : string)
| WorkerStarted (url user_name : string).

(** The window after [__init__]. *)
Definition init : window :=
  {| user_name_input := "";
     table_widget := [];
     fetch_button := true;
     copy_button := false;
     save_action := false;
     status_bar :=
       [Text "Ready. Enter Snowflake User Name and click 'Get Role Hierarchy'."];
     fetch_worker := None |}.

Definition no_hierarchy_phrase : string := "No role hierarchy found".
Definition no_direct_grants_phrase : string := "has no direct role grants".

(** ["No role hierarchy found" in s or "has no direct role grants" in s] *)
Definition is_notice (s : string) : bool :=
  str_in no_hierarchy_phrase s || str_in no_direct_grants_phrase s.

Definition nonempty (s : string) : bool :=
  match s with EmptyString => false | String _ _ => true end.

(** [populate_table], for a list of [str]. *)
Definition populate_table (w : window) (grant_chains_list : list string) : window :=
  match grant_chains_list with
  | [] =>
      {| user_name_input := user_name_input w;
         table_widget := [];
         fetch_button := fetch_button w;
         copy_button := false;
         save_action := false;
         status_bar := [Text "No role grant chains found or user has no roles."];
         fetch_worker := fetch_worker w |}
  | first :: _ =>
      if negb (nonempty first) then
        {| user_name_input := user_name_input w;
           table_widget := [];
           fetch_button := fetch_button w;
           copy_button := false;
           save_action := false;
           status_bar := [Text "No role grant chains found or user has no roles."];
           fetch_worker := fetch_worker w |}
      else if is_notice first then
        {| user_name_input := user_name_input w;
           table_widget := [Some first];
           fetch_button := fetch_button w;
           copy_button := false;
           save_action := false;
           status_bar := [Text first];
           fetch_worker := fetch_worker w |}
      else
        {| user_name_input := user_name_input w;
           table_widget := map Some grant_chains_list;
           fetch_button := fetch_button w;
           copy_button := true;
           save_action := true;
           status_bar :=
             [Text "Successfully fetched ";
              Int (List.length grant_chains_list);
              Text " role grant chains."];
           fetch_worker := fetch_worker w |}
  end.

(** The list is shown whole: it has a first string, which is not empty
    and is no notice. *)
Definition shows_all (grant_chains_list : list string) : bool :=
  match grant_chains_list with
  | [] => false
  | first :: _ => nonempty first && negb (is_notice first)
  end.

(** [show_fetch_error] *)
Definition show_fetch_error (w : window) (error_message : message)
  : window * list effect :=
  ({| user_name_input := user_name_input w;
      table_widget := table_widget w;
      fetch_button := fetch_button w;
      copy_button := false;
      save_action := false;
      status_bar := Text "Error: " :: error_message;
      fetch_worker := fetch_worker w |},
   [CriticalBox "Fetch Error" error_message]).

(** [on_fetch_finished] *)
Definition on_fetch_finished (w : window) : window :=
  let enable_actions :=
    match table_widget w with
    | [] => false
    | None :: _ => false
    | Some text :: _ => negb (is_notice text)
    end in
  {| user_name_input := user_name_input w;
     table_widget := table_widget w;
     fetch_button := true;
     copy_button := enable_actions;
     save_action := enable_actions;
     status_bar := status_bar w;
     fetch_worker := None |}.

(** [self.fetch_worker and self.fetch_worker.isRunning()] *)
Definition fetch_in_progress (w : window) : bool :=
  match fetch_worker w with
  | None => false
  | Some worker => isRunning worker
  end.

(** [start_fetch_data] *)
Definition start_fetch_data (w : window) : window * list effect :=
  if fetch_in_progress w then
    ({| user_name_input := user_name_input w;
        table_widget := table_widget w;
        fetch_button := fetch_button w;
        copy_button := copy_button w;
        save_action := save_action w;
        status_bar := [Text "A fetch operation is already in progress..."];
        fetch_worker := fetch_worker w |}, [])
  else
    let user_name := strip (user_name_input w) in
    if negb (nonempty user_name) then
      (w, [WarningBox "Input Error" "Snowflake User Name cannot be empty."])
    else
      let full_api_url := (BACKEND_API_BASE_URL ++ "/api/role-hierarchy")%string in
      ({| user_name_input := user_name_input w;
          table_widget := [];
          fetch_button := false;
          copy_button := false;
          save_action := false;
          status_bar :=
            [Text "Fetching role hierarchy for '"; Text user_name; Text "'..."];
          fetch_worker :=
            Some {| full_api_url := full_api_url;
                    params_user_name := user_name;
                    isRunning := true;
                    _is_running := true |} |},
       [WorkerStarted full_api_url user_name]).

(** The texts of the rows that have an item with a non-empty text. *)
Fixpoint item_texts (rows : list (option string)) : list string :=
  match rows with
  | [] => []
  | Some text :: rest =>
      if nonempty text then text :: item_texts rest else item_texts rest
  | None :: rest => item_texts rest
  end.

Definition newline : string := String (ascii_of_nat 10) EmptyString.

(** [copy_table_to_clipboard] *)
Definition copy_table_to_clipboard (w : window) : window * list effect :=
  let with_status (m : message) :=
    {| user_name_input := user_name_input w;
       table_widget := table_widget w;
       fetch_button := fetch_button w;
       copy_button := copy_button w;
       save_action := save_action w;
       status_bar := m;
       fetch_worker := fetch_worker w |} in
  match table_widget w with
  | [] => (with_status [Text "Nothing to copy."], [])
  | _ :: _ =>
      let clipboard_text := item_texts (table_widget w) in
      match clipboard_text with
      | [] => (with_status [Text "No data in table to copy."], [])
      | _ :: _ =>
          (with_status [Text "Copied "; Int (List.length clipboard_text);
                        Text " rows to clipboard."],
           [ClipboardSet (String.concat newline clipboard_text)])
      end
  end.

(** [s.replace(" ", "_")] *)
Definition underscore_blanks : string -> string :=
  map_chars (fun c => if Ascii.eqb c " " then "_"%char else c).

(** Every written line: the text and a line feed. *)
Fixpoint written_lines (texts : list string) : string :=
  match texts with
  | [] => EmptyString
  | text :: rest => (text ++ newline ++ written_lines rest)%string
  end.

(** [save_output_to_file].  [stamp] is [datetime.now().strftime(...)],
    [chosen] the path the file dialog returns (empty when the user
    cancels), [io_error] the text of the [IOError] raised while the file
    is opened or written, if any. *)
Definition save_output_to_file (w : window) (stamp chosen : string)
    (io_error : option string) : window * list effect :=
  let with_status (m : message) :=
    {| user_name_input := user_name_input w;
       table_widget := table_widget w;
       fetch_button := fetch_button w;
       copy_button := copy_button w;
       save_action := save_action w;
       status_bar := m;
       fetch_worker := fetch_worker w |} in
  match table_widget w with
  | [] => (with_status [Text "Nothing to save."], [])
  | _ :: _ =>
      let user_name := underscore_blanks (strip (user_name_input w)) in
      let default_filename :=
        if nonempty user_name
        then ("snowflake_role_hierarchy_" ++ user_name ++ "_" ++ stamp ++ ".txt")%string
        else ("snowflake_role_hierarchy_" ++ stamp ++ ".txt")%string in
      let dialog := SaveDialog "Save Output As" default_filename in
      if nonempty chosen then
        match io_error with
        | None =>
            (with_status [Text "Output successfully saved to "; Text chosen],
             [dialog;
              FileWritten chosen (written_lines (item_texts (table_widget w)))])
        | Some e =>
            (with_status [Text "Error saving file: "; Text e],
             [dialog;
              CriticalBox "Save Error"
                [Text "Could not save file to '"; Text chosen; Text "':";
                 Text newline; Text e]])
        end
      else (with_status [Text "Save operation cancelled."], [dialog])
  end.

(** [closeEvent]: a running worker is told to stop. *)
Definition closeEvent (w : window) : window :=
  if fetch_in_progress w then
    {| user_name_input := user_name_input w;
       table_widget := table_widget w;
       fetch_button := fetch_button w;
       copy_button := copy_button w;
       save_action := save_action w;
       status_bar := status_bar w;
       fetch_worker :=
         match fetch_worker w with
         | None => None
         | Some worker =>
             Some {| full_api_url := full_api_url worker;
                     params_user_name := params_user_name worker;
                     isRunning := isRunning worker;
                     _is_running := false |}
         end |}
  else w.

(** The strings of a list of parsed values, when all are strings. *)
Fixpoint strings_of (data : list json) : option (list string) :=
  match data with
  | [] => Some []
  | JString s :: rest =>
      match strings_of rest with
      | Some l => Some (s :: l)
      | None => None
      end
  | _ :: _ => None
  end.

(** The slot connected to a signal; defined when [data_ready] carries
    strings. *)
Definition deliver (w : window) (s : signal) : option (window * list effect) :=
  match s with
  | data_ready data =>
      match strings_of data with
      | Some grant_chains_list => Some (populate_table w grant_chains_list, [])
      | None => None
      end
  | error_occurred error_message => Some (show_fetch_error w error_message)
  end.

Fixpoint deliver_all (w : window) (signals : list signal)
  : option (window * list effect) :=
  match signals with
  | [] => Some (w, [])
  | s :: rest =>
      match deliver w s with
      | None => None
      | Some (w1, effects1) =>
          match deliver_all w1 rest with
          | None => None
          | Some (w2, effects2) => Some (w2, effects1 ++ effects2)
          end
      end
  end.

(** The worker has run and returned: its signals reach their slots in the
    order emitted, then [finished] reaches [on_fetch_finished]. *)
Definition worker_done (w : window) (signals : list signal)
  : option (window * list effect) :=
  match deliver_all w signals with
  | None => None
  | Some (w1, effects) => Some (on_fetch_finished w1, effects)
  end.

(** A click on the fetch button followed by everything it causes, for a
    run of the worker that returns. *)
Definition fetch_round (w : window) (running : nat -> bool)
    (net : string -> get_result) : option (window * list effect) :=
  let (w1, effects1) := start_fetch_data w in
  match effects1 with
  | [WorkerStarted _ user_name] =>
      match run running (net user_name) with
      | (signals, Returned) =>
          match worker_done w1 signals with
          | None => None
          | Some (w2, effects2) => Some (w2, effects1 ++ effects2)
          end
      | (_, Escaped _) => None
      end
  | _ => Some (w1, effects1)
  end.

End Client.

(* ================================================================== *)
(** ** Names beyond ASCII *)

Module Unicode.

Import PyStr Cte Backend Worker Client.

(** [str.strip] and [str.upper] consult the Unicode database: [strip]
    removes every Unicode whitespace, [upper] maps every cased
    character.  They are taken as given; [PyStr.strip] and
    [PyStr.upper] are what they do on ASCII text. *)
Record str_methods := {
  str_strip : string -> string;
  str_upper : string -> string
}.

(** Every character is an ASCII character. *)
Fixpoint ascii_only (s : string) : bool :=
  match s with
  | EmptyString => true
  | String c r => (nat_of_ascii c <? 128) && ascii_only r
  end.

Definition agrees_on_ascii (m : str_methods) : Prop :=
  forall s,
    ascii_only s = true ->
    str_strip m s = strip s /\ str_upper m s = upper s.

Definition ascii_methods : str_methods :=
  {| str_strip := strip; str_upper := upper |}.

(** [get_role_hierarchy_route], with the methods of [str] given. *)
Definition get_role_hierarchy_route_with (m : str_methods) (d : driver)
    (user_name_param : option string) : list event * response :=
  match user_name_param with
  | None => ([], missing_parameter)
  | Some EmptyString => ([], missing_parameter)
  | Some p =>
      let user_name_upper := str_upper m (str_strip m p) in
      match try_block d p user_name_upper with
      | (t, Normal resp) => (t, resp)
      | (t, Raised e) => (t, Backend.except_clauses p e)
      end
  end.

(** [start_fetch_data], with the methods of [str] given. *)
Definition start_fetch_data_with (m : str_methods) (w : window)
  : window * list effect :=
  if fetch_in_progress w then
    ({| user_name_input := user_name_input w;
        table_widget := table_widget w;
        fetch_button := fetch_button w;
        copy_button := copy_button w;
        save_action := save_action w;
        status_bar := [Text "A fetch operation is already in progress..."];
        fetch_worker := fetch_worker w |}, [])
  else
    let user_name := str_strip m (user_name_input w) in
    if negb (nonempty user_name) then
      (w, [WarningBox "Input Error" "Snowflake User Name cannot be empty."])
    else
      let full_api_url := (BACKEND_API_BASE_URL ++ "/api/role-hierarchy")%string in
      ({| user_name_input := user_name_input w;
          table_widget := [];
          fetch_button := false;
          copy_button := false;
          save_action := false;
          status_bar :=
            [Text "Fetching role hierarchy for '"; Text user_name; Text "'..."];
          fetch_worker :=
            Some {| full_api_url := full_api_url;
                    params_user_name := user_name;
                    isRunning := true;
                    _is_running := true |} |},
       [WorkerStarted full_api_url user_name]).

End Unicode.

Import Cte.

(* ================================================================== *)
(** * Properties *)

(** ** Strings *)

Section StringFacts.

Import PyStr.

Lemma string_app_assoc (a b c : string) :
  ((a ++ b) ++ c = a ++ (b ++ c))%string.
Proof. induction a as [|x a IH]; simpl; [reflexivity | now rewrite IH]. Qed.

Lemma string_app_nil_r (a : string) : (a ++ "" = a)%string.
Proof. induction a as [|x a IH]; simpl; [reflexivity | now rewrite IH]. Qed.

Lemma lstrip_split (s : string) :
  exists l, all_space l = true /\ s = (l ++ lstrip s)%string
            /\ starts_with_space (lstrip s) = false.
Proof.
  induction s as [|c s IH]; simpl.
  - exists ""%string. auto.
  - destruct (isspace c) eqn:Hc.
    + destruct IH as (l & Hl & Hs & Hn).
      exists (String c l). simpl. rewrite Hc, Hl. repeat split; auto.
      now rewrite <- Hs.
    + exists ""%string. simpl. rewrite Hc. auto.
Qed.

Lemma rstrip_split (s : string) :
  exists r, all_space r = true /\ s = (rstrip s ++ r)%string
            /\ ends_with_space (rstrip s) = false
            /\ starts_with_space (rstrip s) = starts_with_space s
               && negb (all_space s).
Proof.
  induction s as [|c s IH]; simpl.
  - exists ""%string. auto.
  - destruct IH as (r & Hr & Hs & He & Hst).
    destruct (rstrip s) as [|c' s'] eqn:Hrs.
    + simpl in Hs. subst s. rewrite Hr.
      destruct (isspace c) eqn:Hc; simpl.
      * exists (String c r). simpl. rewrite Hc, Hr. auto.
      * exists r. simpl. rewrite Hc. auto.
    + exists r. repeat split; auto.
      * change (String c s = String c (String c' s' ++ r)%string).
        now f_equal.
      * assert (Hns : all_space s = false).
        { destruct (all_space s) eqn:Ha; [|reflexivity].
          clear - Ha Hrs. exfalso. revert c' s' Hrs.
          induction s as [|x s IH]; simpl in *; intros; [discriminate|].
          apply andb_prop in Ha. destruct Ha as [Hx Ha].
          destruct (rstrip s) eqn:E; [rewrite Hx in Hrs; discriminate|].
          eapply IH; eauto. }
        simpl. rewrite Hns, andb_false_r. simpl. now rewrite andb_true_r.
Qed.

(** [strip] removes a run of whitespace on each side and leaves a string
    that neither starts nor ends with whitespace. *)
Lemma strip_split (s : string) :
  exists l r,
    all_space l = true /\ all_space r = true
    /\ s = (l ++ strip s ++ r)%string
    /\ starts_with_space (strip s) = false
    /\ ends_with_space (strip s) = false.
Proof.
  unfold strip.
  destruct (lstrip_split s) as (l & Hl & Hs & Hn).
  destruct (rstrip_split (lstrip s)) as (r & Hr & Hs' & He & Hst).
  exists l, r. repeat split; auto.
  - now rewrite <- Hs'.
  - rewrite Hst, Hn. reflexivity.
Qed.

Lemma strip_all_space (s : string) : all_space s = true -> strip s = ""%string.
Proof.
  unfold strip. induction s as [|c s IH]; simpl; [reflexivity|].
  intros H. apply andb_prop in H. destruct H as [Hc Hs].
  rewrite Hc. auto.
Qed.

Lemma lstrip_app_space (l s : string) :
  all_space l = true -> lstrip (l ++ s) = lstrip s.
Proof.
  induction l as [|c l IH]; simpl; intros H; [reflexivity|].
  apply andb_prop in H. destruct H as [Hc Hl]. rewrite Hc. auto.
Qed.

Lemma lstrip_all_space (s : string) : all_space s = true -> lstrip s = ""%string.
Proof.
  intros H. rewrite <- (string_app_nil_r s). now rewrite lstrip_app_space.
Qed.

Lemma rstrip_all_space (s : string) : all_space s = true -> rstrip s = ""%string.
Proof.
  induction s as [|c s IH]; simpl; intros H; [reflexivity|].
  apply andb_prop in H. destruct H as [Hc Hs]. now rewrite IH, Hc.
Qed.

Lemma rstrip_app_space (t r : string) :
  all_space r = true -> rstrip (t ++ r) = rstrip t.
Proof.
  intros Hr. induction t as [|c t IH]; simpl.
  - now apply rstrip_all_space.
  - now rewrite IH.
Qed.

Lemma rstrip_fixed (t : string) : ends_with_space t = false -> rstrip t = t.
Proof.
  induction t as [|c t IH]; [reflexivity|].
  destruct t as [|c' t].
  - simpl. now intros ->.
  - intros H. change (ends_with_space (String c' t) = false) in H.
    change (rstrip (String c (String c' t)))
      with (match rstrip (String c' t) with
            | EmptyString => if isspace c then EmptyString else String c EmptyString
            | r' => String c r'
            end).
    now rewrite (IH H).
Qed.

(** The string left by [strip] is the only one that fits between two
    runs of whitespace without starting or ending with whitespace. *)
Lemma trimmed_strip (p t : string) : Backend.trimmed p t -> t = strip p.
Proof.
  intros (l & r & Hl & Hr & -> & Hs & He). unfold strip.
  rewrite lstrip_app_space by exact Hl.
  destruct t as [|c t].
  - simpl. rewrite (lstrip_all_space r Hr). reflexivity.
  - simpl in Hs. change (String c t ++ r)%string with (String c (t ++ r)).
    cbn [lstrip]. rewrite Hs.
    change (String c (t ++ r)) with (String c t ++ r)%string.
    rewrite rstrip_app_space by exact Hr. symmetry. now apply rstrip_fixed.
Qed.

Lemma upper_length (s : string) : String.length (upper s) = String.length s.
Proof.
  unfold upper. induction s as [|c s IH]; simpl; [reflexivity | now rewrite IH].
Qed.

End StringFacts.

(** ** The recursive query *)

Section CteFacts.

Variable st : grant_store.

Lemma string_leb_refl (a : string) : (a <=? a)%string = true.
Proof.
  unfold String.leb.
  change (String.compare a a) with (String_as_OT.cmp a a).
  now rewrite (proj2 (String_as_OT.cmp_eq a a) eq_refl).
Qed.

Lemma string_leb_cases (a b : string) :
  (a <=? b)%string = true <-> a = b \/ String_as_OT.lt a b.
Proof.
  unfold String.leb. split.
  - destruct (String.compare a b) eqn:E; try discriminate; intros _.
    + left. now apply String_as_OT.cmp_eq.
    + right. now apply String_as_OT.cmp_lt.
  - intros [-> | H].
    + apply string_leb_refl.
    + apply String_as_OT.cmp_lt in H. unfold String_as_OT.cmp in H.
      now rewrite H.
Qed.

Lemma string_leb_trans (a b c : string) :
  (a <=? b)%string = true -> (b <=? c)%string = true -> (a <=? c)%string = true.
Proof.
  rewrite !string_leb_cases. intros [-> | H1] [-> | H2]; auto.
  right. eapply String_as_OT.lt_trans; eauto.
Qed.

Lemma order_insert_perm (r : urh_row) (rows : list urh_row) :
  Permutation (r :: rows) (order_insert r rows).
Proof.
  induction rows as [|r' rows IH]; simpl; [reflexivity|].
  destruct (path_string r <=? path_string r')%string; [reflexivity|].
  rewrite perm_swap. now constructor.
Qed.

Lemma order_by_perm (rows : list urh_row) :
  Permutation rows (order_by_path_string rows).
Proof.
  induction rows as [|r rows IH]; simpl; [constructor|].
  rewrite <- order_insert_perm. now constructor.
Qed.

Lemma order_insert_sorted (r : urh_row) (rows : list urh_row) :
  sorted_paths (map path_string rows) ->
  sorted_paths (map path_string (order_insert r rows)).
Proof.
  unfold sorted_paths.
  induction rows as [|r' rows IH]; simpl; intros H.
  - repeat constructor.
  - inversion H as [|? ? Hs Hall]; subst.
    destruct (path_string r <=? path_string r')%string eqn:E; simpl.
    + constructor; [exact H|]. constructor; [exact E|].
      eapply Forall_impl; [|exact Hall]. simpl. intros x Hx.
      eapply string_leb_trans; eauto.
    + constructor; [auto|].
      assert (Hle : (path_string r' <=? path_string r)%string = true).
      { destruct (String.leb_total (path_string r') (path_string r)); congruence. }
      rewrite Forall_forall in *. intros x Hx.
      apply in_map_iff in Hx. destruct Hx as (y & <- & Hy).
      apply (Permutation_in _ (Permutation_sym (order_insert_perm r rows))) in Hy.
      destruct Hy as [-> | Hy]; [exact Hle|].
      apply Hall. now apply in_map.
Qed.

Lemma order_by_sorted (rows : list urh_row) :
  sorted_paths (map path_string (order_by_path_string rows)).
Proof.
  induction rows as [|r rows IH]; simpl.
  - constructor.
  - now apply order_insert_sorted.
Qed.

(** Whatever way the rows are put in order, the ordered list of path
    strings is the same. *)
Lemma sorted_paths_unique (l1 : list string) :
  forall l2,
    Permutation l1 l2 -> sorted_paths l1 -> sorted_paths l2 -> l1 = l2.
Proof.
  unfold sorted_paths.
  induction l1 as [|a l1 IH]; intros l2 Hp H1 H2.
  - now apply Permutation_nil in Hp.
  - destruct l2 as [|b l2].
    + apply Permutation_sym, Permutation_nil in Hp. discriminate.
    + inversion H1 as [|? ? Hs1 Ha]; subst.
      inversion H2 as [|? ? Hs2 Hb]; subst.
      rewrite Forall_forall in Ha, Hb.
      assert (Hab : a = b).
      { assert (Hin1 : In a (b :: l2))
          by (apply (Permutation_in _ Hp); now left).
        assert (Hin2 : In b (a :: l1))
          by (apply (Permutation_in _ (Permutation_sym Hp)); now left).
        destruct Hin1 as [E | Hin1]; [now symmetry|].
        destruct Hin2 as [E | Hin2]; [exact E|].
        apply String.leb_antisym; auto. }
      subst b. f_equal. apply IH; auto.
      now apply Permutation_cons_inv in Hp.
Qed.

Lemma row_4_final_select (rows : list urh_row) :
  map row_4 (map final_select rows) = map path_string rows.
Proof. rewrite map_map. reflexivity. Qed.

(** The strings the route reads from the fetched rows are the path strings
    of the hierarchy, rearranged. *)
Lemma cte_query_paths (p : string) :
  Permutation (map path_string (user_role_hierarchy st p))
              (map row_4 (cte_query st p)).
Proof.
  unfold cte_query. rewrite row_4_final_select.
  apply Permutation_map, order_by_perm.
Qed.

Lemma cte_query_sorted (p : string) :
  sorted_paths (map row_4 (cte_query st p)).
Proof.
  unfold cte_query. rewrite row_4_final_select. apply order_by_sorted.
Qed.

Lemma cte_query_nil (p : string) :
  cte_query st p = [] <-> user_role_hierarchy st p = [].
Proof.
  unfold cte_query. split; intros H.
  - apply map_eq_nil in H.
    apply Permutation_nil. rewrite <- H. apply Permutation_sym, order_by_perm.
  - rewrite H. reflexivity.
Qed.

(** *** Rows of the recursive member *)

Lemma in_recursive_member (working : list urh_row) (r : urh_row) :
  In r (recursive_member st working) <->
  exists u, In u working /\ child_of st u r.
Proof.
  unfold recursive_member, child_of. rewrite in_flat_map. split.
  - intros (gtr & Hg & Hr). apply in_map_iff in Hr.
    destruct Hr as (u & <- & Hu). apply filter_In in Hu.
    destruct Hu as [Hu Hc]. apply andb_prop in Hc. destruct Hc as [Hon Hwh].
    exists u. split; [exact Hu|]. exists gtr. auto.
  - intros (u & Hu & gtr & Hg & Hon & Hwh & ->).
    exists gtr. split; [exact Hg|]. apply in_map, filter_In.
    split; [exact Hu|]. now rewrite Hon, Hwh.
Qed.

Lemma child_level (u r : urh_row) :
  child_of st u r -> level u < 20 /\ level r = level u + 1.
Proof.
  intros (gtr & _ & _ & Hwh & ->). split; [|reflexivity].
  unfold recursive_where in Hwh. apply andb_prop in Hwh.
  destruct Hwh as [_ Hl]. now apply Nat.ltb_lt.
Qed.

Lemma child_path (u r : urh_row) :
  child_of st u r ->
  path_string r = (path_string u ++ " -> " ++ role_name r)%string.
Proof. intros (gtr & _ & _ & _ & ->). reflexivity. Qed.

Lemma anchor_level (p : string) (r : urh_row) :
  In r (anchor_member st p) -> level r = 0 /\ path_string r = role_name r.
Proof.
  unfold anchor_member. intros H. apply in_map_iff in H.
  destruct H as (g & <- & _). auto.
Qed.

(** Every row of the iteration is in the first working table or has its
    parent among the rows. *)
Lemma iterate_origin (fuel : nat) :
  forall working r,
    In r (iterate st fuel working) ->
    In r working \/ exists u, In u (iterate st fuel working) /\ child_of st u r.
Proof.
  induction fuel as [|fuel IH]; intros working r H.
  - destruct working; simpl in H; contradiction.
  - destruct working as [|w working]; [contradiction|].
    cbn [iterate] in *. apply in_app_or in H. destruct H as [H | H]; [auto|].
    right. apply IH in H. destruct H as [H | (u & Hu & Hc)].
    + apply in_recursive_member in H. destruct H as (u & Hu & Hc).
      exists u. split; [apply in_or_app; auto | exact Hc].
    + exists u. split; [apply in_or_app; auto | exact Hc].
Qed.

Lemma hierarchy_origin (p : string) (r : urh_row) :
  In r (user_role_hierarchy st p) ->
  In r (anchor_member st p)
  \/ exists u, In u (user_role_hierarchy st p) /\ child_of st u r.
Proof. apply iterate_origin. Qed.

(** *** The iteration computes the recursive relation *)

Lemma recursive_member_level (n : nat) (working : list urh_row) :
  at_level n working -> at_level (n + 1) (recursive_member st working).
Proof.
  unfold at_level. rewrite !Forall_forall. intros H r Hr.
  apply in_recursive_member in Hr. destruct Hr as (u & Hu & Hc).
  apply child_level in Hc. rewrite (proj2 Hc). now rewrite (H u Hu).
Qed.

Lemma recursive_member_stops (n : nat) (working : list urh_row) :
  at_level n working -> 20 <= n -> recursive_member st working = [].
Proof.
  unfold at_level. rewrite Forall_forall. intros H Hn.
  destruct (recursive_member st working) as [|r rest] eqn:E; [reflexivity|].
  assert (Hr : In r (recursive_member st working)) by (rewrite E; now left).
  apply in_recursive_member in Hr. destruct Hr as (u & Hu & Hc).
  apply child_level in Hc. rewrite (H u Hu) in Hc. lia.
Qed.

Lemma iterate_evaluates (fuel : nat) :
  forall n working,
    at_level n working ->
    (working <> [] -> n <= 20) ->
    21 <= n + fuel ->
    cte_eval st working (iterate st fuel working).
Proof.
  induction fuel as [|fuel IH]; intros n working Hl Hn Hf.
  - destruct working as [|w working]; [constructor|].
    assert (n <= 20) by (apply Hn; discriminate). lia.
  - destruct working as [|w working]; [constructor|].
    cbn [iterate]. constructor; [discriminate|].
    apply (IH (n + 1)).
    + now apply recursive_member_level.
    + intros Hne. assert (n <= 20) by (apply Hn; discriminate).
      destruct (Nat.eq_dec n 20) as [-> | ?]; [|lia].
      exfalso. apply Hne. eapply recursive_member_stops; eauto.
    + lia.
Qed.

Lemma anchor_at_level_0 (p : string) : at_level 0 (anchor_member st p).
Proof.
  unfold at_level. rewrite Forall_forall. intros r Hr.
  now apply anchor_level in Hr.
Qed.

(** The recursive relation has a value, and [user_role_hierarchy] is it. *)
Lemma user_role_hierarchy_evaluates (p : string) :
  cte_eval st (anchor_member st p) (user_role_hierarchy st p).
Proof.
  apply (iterate_evaluates 21 0); [apply anchor_at_level_0 | lia | lia].
Qed.

Lemma cte_eval_deterministic (working r1 r2 : list urh_row) :
  cte_eval st working r1 -> cte_eval st working r2 -> r1 = r2.
Proof.
  intros H1. revert r2. induction H1 as [|working rest Hne _ IH]; intros r2 H2.
  - inversion H2; subst; [reflexivity | congruence].
  - inversion H2 as [|? rest2 ? Hrest2]; subst; [congruence|].
    f_equal. now apply IH.
Qed.

Lemma hierarchy_nil (p : string) :
  user_role_hierarchy st p = [] <-> anchor_member st p = [].
Proof.
  unfold user_role_hierarchy. destruct (anchor_member st p) as [|r rest].
  - simpl. tauto.
  - cbn [iterate]. split; discriminate.
Qed.

End CteFacts.

(** ** The route *)

Section RouteFacts.

Import PyStr Backend.

Lemma route_nonempty (d : driver) (p : string) :
  p <> ""%string ->
  get_role_hierarchy_route d (Some p) =
  match try_block d p (upper (strip p)) with
  | (t, Normal resp) => (t, resp)
  | (t, Raised e) => (t, except_clauses p e)
  end.
Proof. destruct p; [congruence | reflexivity]. Qed.

Lemma try_block_healthy (st : grant_store) (p u : string) :
  try_block (healthy st) p u =
  (healthy_trace u,
   Normal match cte_query st u with
          | [] => (jsonify_strings [no_hierarchy_message p], 200)
          | _ :: _ => (jsonify_strings (map row_4 (cte_query st u)), 200)
          end).
Proof.
  unfold try_block, inner_body, inner_finally, try_finally, bind, invoke, ret,
    healthy_trace.
  cbn [healthy store connect_raises cursor_raises execute_raises
       fetchall_raises cursor_close_raises connection_close_raises].
  destruct (cte_query st u); reflexivity.
Qed.

Lemma route_healthy (st : grant_store) (p : string) :
  p <> ""%string ->
  get_role_hierarchy_route (healthy st) (Some p) =
  (healthy_trace (upper (strip p)),
   match cte_query st (upper (strip p)) with
   | [] => (jsonify_strings [no_hierarchy_message p], 200)
   | _ :: _ => (jsonify_strings (map row_4 (cte_query st (upper (strip p)))), 200)
   end).
Proof.
  intros Hp. rewrite (route_nonempty _ _ Hp), try_block_healthy. reflexivity.
Qed.

Lemma except_clauses_error (p : string) (e : exn) :
  exists msg det status,
    except_clauses p e = (jsonify_error msg (Some det), status)
    /\ (status = 404 \/ status = 500).
Proof.
  destruct e as [d | d | d]; simpl.
  - destruct (str_in _ (lower d)); [eauto 6|].
    destruct (str_in _ (lower d) && str_in _ (lower d)); eauto 6.
  - eauto 6.
  - eauto 6.
Qed.

(** What the outer [try] block can do: raise, return the one-message
    response of the empty case, or return the fetched path strings. *)
Lemma try_block_cases (d : driver) (p u : string) :
  (exists e, snd (try_block d p u) = Raised e)
  \/ (cte_query (store d) u = []
      /\ snd (try_block d p u)
         = Normal (jsonify_strings [no_hierarchy_message p], 200))
  \/ (cte_query (store d) u <> []
      /\ snd (try_block d p u)
         = Normal (jsonify_strings (map row_4 (cte_query (store d) u)), 200)).
Proof.
  destruct d as [st c1 c2 c3 c4 c5 c6].
  unfold try_block, inner_body, inner_finally, try_finally, bind, invoke, ret.
  cbn [store connect_raises cursor_raises execute_raises
       fetchall_raises cursor_close_raises connection_close_raises].
  destruct c1, c2, c3, c4, c5, c6; cbn [snd]; eauto;
    destruct (cte_query st u) eqn:E; cbn [snd]; eauto;
    right; right; split; [discriminate | reflexivity].
Qed.

Lemma route_cases (d : driver) (param : option string) :
  (exists msg det status,
      snd (get_role_hierarchy_route d param) = (jsonify_error msg det, status)
      /\ status <> 200)
  \/ (exists p, param = Some p /\ p <> ""%string
      /\ cte_query (store d) (upper (strip p)) = []
      /\ snd (get_role_hierarchy_route d param)
         = (jsonify_strings [no_hierarchy_message p], 200))
  \/ (exists p, param = Some p /\ p <> ""%string
      /\ cte_query (store d) (upper (strip p)) <> []
      /\ snd (get_role_hierarchy_route d param)
         = (jsonify_strings (map row_4 (cte_query (store d) (upper (strip p)))),
            200)).
Proof.
  destruct param as [p|].
  2:{ left. exists "Missing 'user_name' parameter"%string, None, 400.
      split; [reflexivity | discriminate]. }
  destruct (string_dec p "") as [-> | Hp].
  { left. exists "Missing 'user_name' parameter"%string, None, 400.
    split; [reflexivity | discriminate]. }
  rewrite (route_nonempty _ _ Hp).
  destruct (try_block_cases d p (upper (strip p))) as [(e & He) | [(Hq & Hr) | (Hq & Hr)]];
    destruct (try_block d p (upper (strip p))) as [t o]; cbn [snd] in *; subst o.
  - left. destruct (except_clauses_error p e) as (msg & det & status & -> & Hs).
    exists msg, (Some det), status. split; [reflexivity|]. destruct Hs; subst; discriminate.
  - right; left. exists p. auto.
  - right; right. exists p. auto.
Qed.

Lemma jsonify_strings_inj (l1 l2 : list string) :
  jsonify_strings l1 = jsonify_strings l2 -> l1 = l2.
Proof.
  unfold jsonify_strings. intros H. injection H as H.
  revert l2 H. induction l1 as [|a l1 IH]; intros [|b l2] H;
    simpl in H; try discriminate; [reflexivity|].
  injection H as -> H. f_equal. auto.
Qed.

Lemma jsonify_error_not_list (msg : string) (det : option string) (l : list json) :
  jsonify_error msg det <> JList l.
Proof. destruct det; discriminate. Qed.

(** Releasing the connection: once the cursor exists, the [finally] clause
    closes the connection unless closing the cursor raises. *)
Lemma released_after_cursor (d : driver) (p u : string) :
  connect_raises d = None ->
  cursor_raises d = None ->
  cursor_close_raises d = None ->
  connection_close_raises d = None ->
  released (fst (try_block d p u)).
Proof.
  destruct d as [st c1 c2 c3 c4 c5 c6].
  cbn [store connect_raises cursor_raises execute_raises
       fetchall_raises cursor_close_raises connection_close_raises].
  intros -> -> -> ->.
  unfold released, try_block, inner_body, inner_finally, try_finally, bind,
    invoke, ret.
  cbn [store connect_raises cursor_raises execute_raises
       fetchall_raises cursor_close_raises connection_close_raises].
  destruct c3, c4; try destruct (cte_query st u); cbn; tauto.
Qed.

Lemma route_status (d : driver) (p : string) :
  p <> ""%string ->
  let status := snd (snd (get_role_hierarchy_route d (Some p))) in
  status = 200 \/ status = 404 \/ status = 500.
Proof.
  intros Hp. rewrite (route_nonempty _ _ Hp).
  destruct (try_block_cases d p (upper (strip p))) as [(e & He) | [(_ & Hr) | (_ & Hr)]];
    destruct (try_block d p (upper (strip p))) as [t o]; cbn [snd] in *; subst o;
    cbn [snd]; auto.
  destruct (except_clauses_error p e) as (msg & det & status & -> & Hs).
  cbn [snd]. tauto.
Qed.

(** The only statement the route executes carries the normalised name. *)
Lemma executed_parameter (d : driver) (p u v : string) (ok : bool) :
  In {| call := Execute v; completed := ok |} (fst (try_block d p u)) -> v = u.
Proof.
  destruct d as [st c1 c2 c3 c4 c5 c6].
  unfold try_block, inner_body, inner_finally, try_finally, bind, invoke, ret.
  cbn [store connect_raises cursor_raises execute_raises
       fetchall_raises cursor_close_raises connection_close_raises].
  destruct c1, c2, c3, c4, c5, c6; try destruct (cte_query st u);
    cbn; intros H;
    repeat match goal with
           | H : _ \/ _ |- _ => destruct H as [H | H]
           | H : False |- _ => contradiction
           | H : {| call := _; completed := _ |} = _ |- _ =>
               first [discriminate H | now injection H]
           end.
Qed.

Lemma statement_executed (d : driver) (p u : string) :
  connect_raises d = None ->
  cursor_raises d = None ->
  exists ok, In {| call := Execute u; completed := ok |} (fst (try_block d p u)).
Proof.
  destruct d as [st c1 c2 c3 c4 c5 c6].
  cbn [connect_raises cursor_raises]. intros -> ->.
  unfold try_block, inner_body, inner_finally, try_finally, bind, invoke, ret.
  cbn [store connect_raises cursor_raises execute_raises
       fetchall_raises cursor_close_raises connection_close_raises].
  destruct c3; [exists false | exists true];
    destruct c4, c5, c6; try destruct (cte_query st u); cbn; tauto.
Qed.

Lemma route_trace (d : driver) (p : string) :
  p <> ""%string ->
  fst (get_role_hierarchy_route d (Some p))
  = fst (try_block d p (upper (strip p))).
Proof.
  intros Hp. rewrite (route_nonempty _ _ Hp).
  now destruct (try_block d p (upper (strip p))) as [t [resp | e]].
Qed.

End RouteFacts.

(** ** The route with the methods of [str] given *)

Section UnicodeFacts.

Import PyStr Backend Unicode.

Variable m : str_methods.

Lemma route_with_ascii_methods (d : driver) (param : option string) :
  get_role_hierarchy_route_with ascii_methods d param
  = get_role_hierarchy_route d param.
Proof. reflexivity. Qed.

Lemma route_with_nonempty (d : driver) (p : string) :
  p <> ""%string ->
  get_role_hierarchy_route_with m d (Some p) =
  match try_block d p (str_upper m (str_strip m p)) with
  | (t, Normal resp) => (t, resp)
  | (t, Raised e) => (t, except_clauses p e)
  end.
Proof. destruct p; [congruence | reflexivity]. Qed.

Lemma route_with_trace (d : driver) (p : string) :
  p <> ""%string ->
  fst (get_role_hierarchy_route_with m d (Some p))
  = fst (try_block d p (str_upper m (str_strip m p))).
Proof.
  intros Hp. rewrite (route_with_nonempty _ _ Hp).
  now destruct (try_block d p (str_upper m (str_strip m p))) as [t [resp | e]].
Qed.

(** What the route answers: an error object, the one message of the empty
    case, or the fetched path strings. *)
Lemma route_with_cases (d : driver) (param : option string) :
  (exists msg det status,
      snd (get_role_hierarchy_route_with m d param) = (jsonify_error msg det, status)
      /\ status <> 200)
  \/ (exists p, param = Some p /\ p <> ""%string
      /\ cte_query (store d) (str_upper m (str_strip m p)) = []
      /\ snd (get_role_hierarchy_route_with m d param)
         = (jsonify_strings [no_hierarchy_message p], 200))
  \/ (exists p, param = Some p /\ p <> ""%string
      /\ cte_query (store d) (str_upper m (str_strip m p)) <> []
      /\ snd (get_role_hierarchy_route_with m d param)
         = (jsonify_strings
              (map row_4 (cte_query (store d) (str_upper m (str_strip m p)))),
            200)).
Proof.
  destruct param as [p|].
  2:{ left. exists "Missing 'user_name' parameter"%string, None, 400.
      split; [reflexivity | discriminate]. }
  destruct (string_dec p "") as [-> | Hp].
  { left. exists "Missing 'user_name' parameter"%string, None, 400.
    split; [reflexivity | discriminate]. }
  rewrite (route_with_nonempty _ _ Hp).
  destruct (try_block_cases d p (str_upper m (str_strip m p)))
    as [(e & He) | [(Hq & Hr) | (Hq & Hr)]];
    destruct (try_block d p (str_upper m (str_strip m p))) as [t o];
    cbn [snd] in *; subst o.
  - left. destruct (except_clauses_error p e) as (msg & det & status & -> & Hs).
    exists msg, (Some det), status. split; [reflexivity|].
    destruct Hs; subst; discriminate.
  - right; left. exists p. auto.
  - right; right. exists p. auto.
Qed.

Lemma route_with_status (d : driver) (p : string) :
  p <> ""%string ->
  snd (snd (get_role_hierarchy_route_with m d (Some p))) = 200
  \/ snd (snd (get_role_hierarchy_route_with m d (Some p))) = 404
  \/ snd (snd (get_role_hierarchy_route_with m d (Some p))) = 500.
Proof.
  intros Hp. rewrite (route_with_nonempty _ _ Hp).
  destruct (try_block_cases d p (str_upper m (str_strip m p)))
    as [(e & He) | [(_ & Hr) | (_ & Hr)]];
    destruct (try_block d p (str_upper m (str_strip m p))) as [t o];
    cbn [snd] in *; subst o; cbn [snd]; auto.
  destruct (except_clauses_error p e) as (msg & det & status & -> & Hs).
  cbn [snd]. tauto.
Qed.

Lemma ascii_only_app (a b : string) :
  ascii_only (a ++ b) = ascii_only a && ascii_only b.
Proof.
  induction a as [|c a IH]; simpl; [reflexivity|].
  now rewrite IH, andb_assoc.
Qed.

Lemma ascii_only_strip (s : string) :
  ascii_only s = true -> ascii_only (strip s) = true.
Proof.
  intros H. destruct (strip_split s) as (l & r & _ & _ & E & _).
  rewrite E, !ascii_only_app in H.
  apply andb_prop in H. destruct H as [_ H].
  apply andb_prop in H. tauto.
Qed.

Lemma all_space_ascii_only (s : string) :
  all_space s = true -> ascii_only s = true.
Proof.
  induction s as [|c s IH]; simpl; [reflexivity|].
  intros H. apply andb_prop in H. destruct H as [Hc Hs].
  rewrite (IH Hs), andb_true_r. revert Hc.
  destruct c as [[] [] [] [] [] [] [] []]; vm_compute; congruence.
Qed.

Lemma ascii_only_map_chars (f : ascii -> ascii) (s : string) :
  (forall c, (nat_of_ascii c <? 128) = true -> (nat_of_ascii (f c) <? 128) = true) ->
  ascii_only s = true -> ascii_only (map_chars f s) = true.
Proof.
  intros Hf. induction s as [|c s IH]; simpl; [reflexivity|].
  intros H. apply andb_prop in H. destruct H as [Hc Hs].
  now rewrite (Hf c Hc), (IH Hs).
Qed.

Lemma ascii_only_upper (s : string) :
  ascii_only s = true -> ascii_only (upper s) = true.
Proof.
  apply ascii_only_map_chars.
  intros c. destruct c as [[] [] [] [] [] [] [] []]; vm_compute; congruence.
Qed.

Lemma ascii_only_lower (s : string) :
  ascii_only s = true -> ascii_only (lower s) = true.
Proof.
  apply ascii_only_map_chars.
  intros c. destruct c as [[] [] [] [] [] [] [] []]; vm_compute; congruence.
Qed.

(** On an ASCII parameter the given methods normalise as [PyStr] does. *)
Lemma normalise_on_ascii (p : string) :
  agrees_on_ascii m ->
  ascii_only p = true ->
  str_upper m (str_strip m p) = upper (strip p).
Proof.
  intros Hm Hp. rewrite (proj1 (Hm p Hp)).
  apply (proj2 (Hm (strip p) (ascii_only_strip p Hp))).
Qed.

Lemma route_with_on_ascii (d : driver) (p : string) :
  agrees_on_ascii m ->
  ascii_only p = true ->
  get_role_hierarchy_route_with m d (Some p)
  = get_role_hierarchy_route d (Some p).
Proof.
  intros Hm Hp. destruct p as [|c p]; [reflexivity|].
  unfold get_role_hierarchy_route_with, get_role_hierarchy_route.
  now rewrite (normalise_on_ascii _ Hm Hp).
Qed.

Lemma anchor_member_nil (st : grant_store) (u : string) :
  anchor_member st u = [] ->
  forall g, In g (grants_to_users st) ->
            gtu_DELETED_ON g = None -> gtu_GRANTEE_NAME g <> u.
Proof.
  unfold anchor_member. intros H g Hg Hd Hn.
  apply map_eq_nil in H.
  assert (Hin : In g (filter (anchor_where u) (grants_to_users st))).
  { apply filter_In. split; [exact Hg|].
    unfold anchor_where. rewrite Hd, Hn, String.eqb_refl. reflexivity. }
  rewrite H in Hin. contradiction.
Qed.

Lemma anchor_member_cons (st : grant_store) (u : string) :
  anchor_member st u <> [] ->
  exists g, In g (grants_to_users st)
            /\ gtu_GRANTEE_NAME g = u /\ gtu_DELETED_ON g = None.
Proof.
  unfold anchor_member. intros H.
  destruct (filter (anchor_where u) (grants_to_users st)) as [|g l] eqn:E;
    [contradiction|].
  assert (Hin : In g (filter (anchor_where u) (grants_to_users st)))
    by (rewrite E; now left).
  apply filter_In in Hin. destruct Hin as [Hg Hw].
  unfold anchor_where in Hw. apply andb_prop in Hw. destruct Hw as [Hn Hd].
  exists g. split; [exact Hg|]. split.
  - now apply String.eqb_eq.
  - now destruct (gtu_DELETED_ON g).
Qed.

End UnicodeFacts.

(* ================================================================== *)
(** * The route: results *)

Section RouteResults.

Import PyStr Backend Scenarios Stores Unicode.

(** C1.  With the two grants of [store_A], the request for [alice] is
    answered with the paths [ANALYST] and [ANALYST -> READER], in that
    order.  And whenever the route answers with a list of strings, a
    parameter was sent and the list is in ascending byte-wise order; it
    is the one message of the empty case when the hierarchy of the
    normalised name is empty, and otherwise it holds the path strings of
    all rows of that hierarchy, each as often as it occurs. *)
Theorem scenario_A_and_sorted_paths :
  get_role_hierarchy_route (healthy store_A) (Some "alice"%string)
  = (healthy_trace "ALICE",
     (JList [JString "ANALYST"; JString "ANALYST -> READER"], 200))
  /\ (forall m : str_methods,
         agrees_on_ascii m ->
         get_role_hierarchy_route_with m (healthy store_A) (Some "alice"%string)
         = (healthy_trace "ALICE",
            (JList [JString "ANALYST"; JString "ANALYST -> READER"], 200)))
  /\ forall (m : str_methods) (d : driver) (param : option string)
            (paths : list string) (status : nat),
      snd (get_role_hierarchy_route_with m d param)
      = (jsonify_strings paths, status) ->
      sorted_paths paths
      /\ exists p,
          param = Some p
          /\ ((user_role_hierarchy (store d) (str_upper m (str_strip m p)) = []
               /\ paths = [no_hierarchy_message p])
              \/ (user_role_hierarchy (store d) (str_upper m (str_strip m p)) <> []
                  /\ Permutation
                       (map path_string
                            (user_role_hierarchy (store d)
                               (str_upper m (str_strip m p))))
                       paths)).
Proof.
  split; [reflexivity|]. split.
  { intros m Hm.
    now rewrite (route_with_on_ascii m (healthy store_A) "alice" Hm eq_refl). }
  intros m d param paths status H.
  destruct (route_with_cases m d param)
    as [(msg & det & st' & E & _) | [(p & Hparam & _ & Hq & E) | (p & Hparam & _ & Hq & E)]];
    rewrite E in H.
  - exfalso. apply (f_equal fst) in H. cbn [fst] in H.
    now apply jsonify_error_not_list in H.
  - apply (f_equal fst) in H. cbn [fst] in H.
    apply jsonify_strings_inj in H. subst paths.
    split; [repeat constructor|]. exists p. split; [exact Hparam|].
    left. split; [|reflexivity]. now apply cte_query_nil.
  - apply (f_equal fst) in H. cbn [fst] in H.
    apply jsonify_strings_inj in H. subst paths.
    split; [apply cte_query_sorted|]. exists p. split; [exact Hparam|].
    right. split; [|apply cte_query_paths].
    intros Hn. apply Hq. now apply cte_query_nil.
Qed.

Lemma scenario_A_and_sorted_paths_witness :
  sorted_paths ["A"; "A -> READER"; "B"; "B -> READER"]%string
  /\ exists p,
      Some "alice"%string = Some p
      /\ ((user_role_hierarchy diamond_store (upper (strip p)) = []
           /\ ["A"; "A -> READER"; "B"; "B -> READER"]%string
              = [no_hierarchy_message p])
          \/ (user_role_hierarchy diamond_store (upper (strip p)) <> []
              /\ Permutation
                   (map path_string
                        (user_role_hierarchy diamond_store (upper (strip p))))
                   ["A"; "A -> READER"; "B"; "B -> READER"]%string)).
Proof.
  apply (proj2 (proj2 scenario_A_and_sorted_paths) ascii_methods
               (healthy diamond_store) (Some "alice"%string)
               ["A"; "A -> READER"; "B"; "B -> READER"]%string 200).
  reflexivity.
Defined.




(** C5 at its failing inputs.  When [connection.cursor()] raises, or when
    [cur.close()] raises in the [finally] clause, the connection has been
    opened and the route answers without closing it. *)
Theorem connection_left_open :
  (opened (fst (get_role_hierarchy_route cursor_fails (Some "alice"%string)))
   /\ ~ released (fst (get_role_hierarchy_route cursor_fails (Some "alice"%string)))
   /\ snd (snd (get_role_hierarchy_route cursor_fails (Some "alice"%string))) = 500)
  /\
  (opened (fst (get_role_hierarchy_route cursor_close_fails (Some "alice"%string)))
   /\ ~ released (fst (get_role_hierarchy_route cursor_close_fails (Some "alice"%string)))
   /\ snd (snd (get_role_hierarchy_route cursor_close_fails (Some "alice"%string))) = 500).
Proof.
  unfold opened, released. split; (split; [|split]);
    try (vm_compute; tauto); try reflexivity;
    vm_compute; intros H;
    repeat match goal with
           | H : _ \/ _ |- _ => destruct H as [H | H]
           | H : False |- _ => contradiction
           | H : _ = _ |- _ => discriminate H
           end.
Qed.

(** The 404 branch as written.  A [ProgrammingError] whose text, in lower
    case, contains [object does not exist or not authorized] is answered
    with status 404, an error message naming the parameter, and the text
    of the error as details. *)
Lemma hidden_object_answers_404 (d : driver) (p detail : string) :
  p <> ""%string ->
  raised_in_try d p = Some (ProgrammingError detail) ->
  str_in "object does not exist or not authorized" (lower detail) = true ->
  snd (get_role_hierarchy_route d (Some p))
  = (JDict [("error"%string,
             JString ("User '" ++ p
                      ++ "' may not exist, or the connecting role lacks permissions to view its grants or the ACCOUNT_USAGE schema."));
            ("details"%string, JString detail)],
     404).
Proof.
  intros Hp Hr Hs. rewrite (route_nonempty _ _ Hp).
  unfold raised_in_try in Hr.
  destruct (try_block d p (upper (strip p))) as [t [resp | e]]; [discriminate|].
  injection Hr as ->. cbn [snd except_clauses]. now rewrite Hs.
Qed.

Lemma hidden_object_answers_404_witness :
  snd (snd (get_role_hierarchy_route object_hidden (Some "alice"%string))) = 404.
Proof.
  rewrite (hidden_object_answers_404 object_hidden "alice"
             "SQL compilation error: Object does not exist or not authorized.");
    [reflexivity | discriminate | reflexivity | reflexivity].
Defined.

(** C6 at its failing input.  [cur.execute] raises the [ProgrammingError]
    Snowflake reports for a view the connecting role cannot read, which
    names the view between [Object] and [does not exist or not
    authorized].  The text mentions [not authorized] but does not hold
    the phrase the route searches for, so the 404 branch is passed over
    and the answer is the general 500 response. *)
Theorem not_authorized_answers_500 :
  execute_raises access_denied
  = Some (ProgrammingError
            "SQL compilation error: Object 'SNOWFLAKE.ACCOUNT_USAGE.GRANTS_TO_USERS' does not exist or not authorized.")
  /\ raised_in_try access_denied "alice"
     = Some (ProgrammingError
               "SQL compilation error: Object 'SNOWFLAKE.ACCOUNT_USAGE.GRANTS_TO_USERS' does not exist or not authorized.")
  /\ str_in "not authorized"
       (lower "SQL compilation error: Object 'SNOWFLAKE.ACCOUNT_USAGE.GRANTS_TO_USERS' does not exist or not authorized.")
     = true
  /\ str_in "object does not exist or not authorized"
       (lower "SQL compilation error: Object 'SNOWFLAKE.ACCOUNT_USAGE.GRANTS_TO_USERS' does not exist or not authorized.")
     = false
  /\ snd (get_role_hierarchy_route access_denied (Some "alice"%string))
     = (JDict [("error"%string,
                JString "Error querying Snowflake for role hierarchy (CTE).");
               ("details"%string,
                JString "SQL compilation error: Object 'SNOWFLAKE.ACCOUNT_USAGE.GRANTS_TO_USERS' does not exist or not authorized.")],
        500).
Proof. repeat split. Qed.

(** C7.  Without a parameter, or with the empty one, the answer is status
    400 with the body [{"error": "Missing 'user_name' parameter"}] and no
    call to the driver.  Otherwise the name every executed statement
    carries is the parameter after [strip()] and [upper()], whatever its
    characters; it is the name compared with [GRANTEE_NAME]: the route
    answers with the one message exactly when no grant that is not
    deleted has that grantee, and otherwise with the rows fetched for
    it, whose level-0 rows name that grantee.  For an ASCII parameter
    the name is the upper case of its one trimmed form. *)
Theorem missing_or_normalised_parameter (m : str_methods) (d : driver) :
  get_role_hierarchy_route_with m d None
  = ([], (JDict [("error"%string, JString "Missing 'user_name' parameter")], 400))
  /\ get_role_hierarchy_route_with m d (Some ""%string)
     = ([], (JDict [("error"%string, JString "Missing 'user_name' parameter")], 400))
  /\ forall p : string,
      p <> ""%string ->
      (forall v ok,
          In {| call := Execute v; completed := ok |}
             (fst (get_role_hierarchy_route_with m d (Some p))) ->
          v = str_upper m (str_strip m p))
      /\ (connect_raises d = None -> cursor_raises d = None ->
          exists ok,
            In {| call := Execute (str_upper m (str_strip m p)); completed := ok |}
               (fst (get_role_hierarchy_route_with m d (Some p))))
      /\ (forall paths status,
             snd (get_role_hierarchy_route_with m d (Some p))
             = (jsonify_strings paths, status) ->
             status = 200
             /\ ((paths = [no_hierarchy_message p]
                  /\ forall g,
                      In g (grants_to_users (store d)) ->
                      gtu_DELETED_ON g = None ->
                      gtu_GRANTEE_NAME g <> str_upper m (str_strip m p))
                 \/ (paths
                     = map row_4 (cte_query (store d) (str_upper m (str_strip m p)))
                     /\ exists g,
                         In g (grants_to_users (store d))
                         /\ gtu_GRANTEE_NAME g = str_upper m (str_strip m p)
                         /\ gtu_DELETED_ON g = None)))
      /\ (forall r,
             In r (user_role_hierarchy (store d) (str_upper m (str_strip m p))) ->
             level r = 0 ->
             granted_via_name r = str_upper m (str_strip m p))
      /\ (agrees_on_ascii m ->
          ascii_only p = true ->
          exists t,
            trimmed p t
            /\ (forall t', trimmed p t' -> t' = t)
            /\ str_upper m (str_strip m p) = upper t).
Proof.
  split; [reflexivity|]. split; [reflexivity|].
  intros p Hp. split; [|split; [|split; [|split]]].
  - intros v ok H. rewrite (route_with_trace m _ _ Hp) in H.
    eapply executed_parameter; eauto.
  - intros H1 H2. rewrite (route_with_trace m _ _ Hp).
    now apply statement_executed.
  - intros paths status H.
    destruct (route_with_cases m d (Some p))
      as [(msg & det & st' & E & _) | [(q & Hq & _ & Hc & E) | (q & Hq & _ & Hc & E)]];
      rewrite E in H.
    + exfalso. apply (f_equal fst) in H. cbn [fst] in H.
      now apply jsonify_error_not_list in H.
    + injection Hq as <-. pose proof (f_equal snd H) as Hs. cbn [snd] in Hs.
      apply (f_equal fst) in H. cbn [fst] in H.
      apply jsonify_strings_inj in H. subst paths.
      split; [now symmetry|]. left. split; [reflexivity|].
      apply anchor_member_nil. now apply hierarchy_nil, cte_query_nil.
    + injection Hq as <-. pose proof (f_equal snd H) as Hs. cbn [snd] in Hs.
      apply (f_equal fst) in H. cbn [fst] in H.
      apply jsonify_strings_inj in H. subst paths.
      split; [now symmetry|]. right. split; [reflexivity|].
      apply anchor_member_cons. intros Ha. apply Hc.
      now apply cte_query_nil, hierarchy_nil.
  - intros r Hr Hl.
    apply hierarchy_origin in Hr. destruct Hr as [Hr | (u & _ & Hc)].
    + unfold anchor_member in Hr. apply in_map_iff in Hr.
      destruct Hr as (g & <- & Hg). apply filter_In in Hg.
      destruct Hg as [_ Hg]. unfold anchor_where in Hg.
      apply andb_prop in Hg. destruct Hg as [Hg _].
      now apply String.eqb_eq in Hg.
    + apply child_level in Hc. lia.
  - intros Hm Ha. exists (strip p). split; [|split].
    + destruct (strip_split p) as (l & r & H). exists l, r. exact H.
    + intros t' Ht'. now apply trimmed_strip.
    + now apply normalise_on_ascii.
Qed.

Lemma missing_or_normalised_parameter_witness :
  "  alice "%string <> ""%string
  /\ exists ok,
      In {| call := Execute "ALICE"; completed := ok |}
         (fst (get_role_hierarchy_route_with ascii_methods (healthy store_A)
                 (Some "  alice "%string))).
Proof.
  assert (Hp : "  alice "%string <> ""%string) by discriminate.
  split; [exact Hp|].
  exact (proj1 (proj2 (proj2 (proj2 (missing_or_normalised_parameter
                                       ascii_methods (healthy store_A)))
                             "  alice "%string Hp))
               eq_refl eq_refl).
Defined.

(** C10.  A parameter made of whitespace only is not rejected: it
    normalises to the empty string, the status is never 400, the statement
    is executed with the empty string, and when no grant names the empty
    string the answer is the one-message response. *)
Theorem blank_parameter_is_resolved (d : driver) (p : string) :
  p <> ""%string ->
  all_space p = true ->
  upper (strip p) = ""%string
  /\ snd (snd (get_role_hierarchy_route d (Some p))) <> 400
  /\ (connect_raises d = None -> cursor_raises d = None ->
      exists ok,
        In {| call := Execute ""; completed := ok |}
           (fst (get_role_hierarchy_route d (Some p))))
  /\ (healthy (store d) = d ->
      anchor_member (store d) "" = [] ->
      get_role_hierarchy_route d (Some p)
      = (healthy_trace "",
         (JList [JString (no_hierarchy_message p)], 200))).
Proof.
  intros Hp Hs.
  assert (Hu : upper (strip p) = ""%string) by now rewrite strip_all_space.
  split; [exact Hu|]. split; [|split].
  - pose proof (route_status d p Hp) as H. cbv zeta in H.
    intros E. rewrite E in H. destruct H as [H | [H | H]]; discriminate.
  - intros H1 H2. rewrite (route_trace _ _ Hp), Hu.
    now apply statement_executed.
  - intros Hd Ha. rewrite <- Hd, (route_healthy _ _ Hp), Hu.
    apply hierarchy_nil, cte_query_nil in Ha. now rewrite Ha.
Qed.

Lemma blank_parameter_is_resolved_witness :
  get_role_hierarchy_route (healthy store_A) (Some " "%string)
  = (healthy_trace "",
     (JList [JString (no_hierarchy_message " ")], 200)).
Proof.
  apply (blank_parameter_is_resolved (healthy store_A) " ");
    [discriminate | reflexivity | reflexivity | reflexivity].
Defined.

End RouteResults.

(* ================================================================== *)
(** * The recursive query: results *)

Section HierarchyResults.

Import Scenarios.

Lemma join_path_snoc (segments : list string) (x : string) :
  segments <> [] ->
  join_path (segments ++ [x])
  = (join_path segments ++ " -> " ++ x)%string.
Proof.
  unfold join_path, separator.
  induction segments as [|a segments IH]; intros Hne; [congruence|].
  destruct segments as [|b segments].
  - reflexivity.
  - change (String.concat " -> " ((a :: b :: segments) ++ [x]))
      with (a ++ " -> " ++ String.concat " -> " ((b :: segments) ++ [x]))%string.
    rewrite IH by discriminate.
    change (String.concat " -> " (a :: b :: segments))
      with (a ++ " -> " ++ String.concat " -> " (b :: segments))%string.
    now rewrite !string_app_assoc.
Qed.

(** Every row is the end of a chain of role names: as many as its level
    plus one, joined into its path string; and above level 0 the chain
    without its last name is the path string of the row's parent. *)
Lemma hierarchy_chain (st : grant_store) (p : string) (n : nat) :
  forall r,
    level r = n ->
    In r (user_role_hierarchy st p) ->
    exists segments,
      List.length segments = n + 1
      /\ path_string r = join_path segments
      /\ (0 < n ->
          exists u, In u (user_role_hierarchy st p)
                    /\ child_of st u r
                    /\ path_string u = join_path (firstn n segments)).
Proof.
  induction n as [|n IH]; intros r Hl Hr.
  - destruct (hierarchy_origin st p r Hr) as [Ha | (u & _ & Hc)].
    + apply anchor_level in Ha. destruct Ha as [_ Hp].
      exists [role_name r]. repeat split; [exact Hp | lia].
    + apply child_level in Hc. lia.
  - destruct (hierarchy_origin st p r Hr) as [Ha | (u & Hu & Hc)].
    + apply anchor_level in Ha. lia.
    + pose proof (child_level st u r Hc) as [_ Hlu].
      assert (Hun : level u = n) by lia.
      destruct (IH u Hun Hu) as (segs & Hlen & Hpath & _).
      exists (segs ++ [role_name r]). split; [|split].
      * rewrite length_app. simpl. lia.
      * rewrite join_path_snoc by (destruct segs; simpl in *; [lia | discriminate]).
        rewrite <- Hpath. now apply (child_path st).
      * intros _. exists u. split; [exact Hu|]. split; [exact Hc|].
        rewrite firstn_app. replace (S n - List.length segs) with 0 by lia.
        rewrite firstn_all2 by lia. simpl. now rewrite app_nil_r.
Qed.

Lemma emitted_path (st : grant_store) (p path : string) :
  In path (map row_4 (cte_query st p)) <->
  exists r, In r (user_role_hierarchy st p) /\ path_string r = path.
Proof.
  split.
  - intros H.
    apply (Permutation_in _ (Permutation_sym (cte_query_paths st p))) in H.
    apply in_map_iff in H. destruct H as (r & Hp & Hr). eauto.
  - intros (r & Hr & <-).
    apply (Permutation_in _ (cte_query_paths st p)). now apply in_map.
Qed.

(** C2, with the bound the query enforces.  Every emitted path string
    belongs to a row of level at most 20, which is an anchor row or was
    produced from a row of level below 20; it joins as many role names as
    that level plus one, so at most 21. *)
Theorem depth_bound (st : grant_store) (p path : string) :
  In path (map row_4 (cte_query st p)) ->
  exists r segments,
    In r (user_role_hierarchy st p)
    /\ path_string r = path
    /\ (In r (anchor_member st p) /\ level r = 0
        \/ exists u, In u (user_role_hierarchy st p)
                     /\ child_of st u r
                     /\ level u < 20 /\ level r = level u + 1)
    /\ path = join_path segments
    /\ List.length segments = level r + 1
    /\ List.length segments <= 21.
Proof.
  intros H. apply emitted_path in H. destruct H as (r & Hr & Hp).
  destruct (hierarchy_chain st p (level r) r eq_refl Hr) as (segs & Hlen & Hpath & _).
  assert (Horigin :
            In r (anchor_member st p) /\ level r = 0
            \/ exists u, In u (user_role_hierarchy st p)
                         /\ child_of st u r
                         /\ level u < 20 /\ level r = level u + 1).
  { destruct (hierarchy_origin st p r Hr) as [Ha | (u & Hu & Hc)].
    - left. split; [exact Ha|]. now apply anchor_level in Ha.
    - right. exists u. pose proof (child_level st u r Hc). tauto. }
  exists r, segs. repeat split; auto; try congruence.
  destruct Horigin as [[_ H0] | (u & _ & _ & Hu & Hl)]; lia.
Qed.

Lemma depth_bound_witness :
  exists r segments,
    In r (user_role_hierarchy store_A "ALICE")
    /\ path_string r = "ANALYST -> READER"%string
    /\ (In r (anchor_member store_A "ALICE") /\ level r = 0
        \/ exists u, In u (user_role_hierarchy store_A "ALICE")
                     /\ child_of store_A u r
                     /\ level u < 20 /\ level r = level u + 1)
    /\ "ANALYST -> READER"%string = join_path segments
    /\ List.length segments = level r + 1
    /\ List.length segments <= 21.
Proof.
  apply (depth_bound store_A "ALICE" "ANALYST -> READER").
  vm_compute. tauto.
Defined.

(** C2 as stated fails: with the chain of roles R00 .. R21 the route emits
    the path R00 -> ... -> R20, which has 21 segments. *)
Lemma path_of_21_segments :
  In deep_path (map row_4 (cte_query deep_store "ALICE"))
  /\ (exists paths,
         snd (Backend.get_role_hierarchy_route
                (Backend.healthy deep_store) (Some "alice"%string))
         = (Backend.jsonify_strings paths, 200)
         /\ In deep_path paths)
  /\ split_path deep_path = map role_of (seq 0 21)
  /\ 20 < count_segments deep_path.
Proof.
  assert (H : In deep_path (map row_4 (cte_query deep_store "ALICE"))).
  { vm_compute. do 20 right. left. reflexivity. }
  split; [exact H|]. split; [|split].
  - exists (map row_4 (cte_query deep_store "ALICE")). split; [|exact H].
    vm_compute. reflexivity.
  - vm_compute. reflexivity.
  - vm_compute. lia.
Qed.

(** C8, counting the segments of the parent.  A row above level 0 has a
    chain of level + 1 role names; the path string of the first level
    names (all but the last) is the path string of its parent, which is
    one level lower and is emitted as well.  The level bound never
    removes a parent. *)
Theorem parent_path_emitted (st : grant_store) (p : string) (r : urh_row) :
  In r (user_role_hierarchy st p) ->
  0 < level r ->
  exists segments u,
    List.length segments = level r + 1
    /\ path_string r = join_path segments
    /\ In u (user_role_hierarchy st p)
    /\ level u = level r - 1
    /\ path_string u = join_path (firstn (level r) segments)
    /\ path_string r = (path_string u ++ " -> " ++ role_name r)%string
    /\ In (join_path (firstn (level r) segments)) (map row_4 (cte_query st p)).
Proof.
  intros Hr Hl.
  destruct (hierarchy_chain st p (level r) r eq_refl Hr) as (segs & Hlen & Hpath & Hpar).
  destruct (Hpar Hl) as (u & Hu & Hc & Hup).
  exists segs, u. repeat split; auto.
  - apply child_level in Hc. lia.
  - now apply (child_path st).
  - apply emitted_path. exists u. auto.
Qed.

Lemma parent_path_emitted_witness :
  exists r segments u,
    List.length segments = level r + 1
    /\ path_string r = join_path segments
    /\ In u (user_role_hierarchy store_A "ALICE")
    /\ level u = level r - 1
    /\ path_string u = join_path (firstn (level r) segments)
    /\ path_string r = (path_string u ++ " -> " ++ role_name r)%string
    /\ In (join_path (firstn (level r) segments))
          (map row_4 (cte_query store_A "ALICE")).
Proof.
  exists (recursive_select
            {| gtr_GRANTEE_NAME := "ANALYST"; gtr_NAME := "READER";
               gtr_PRIVILEGE := "USAGE"; gtr_GRANTED_ON := "ROLE";
               gtr_DELETED_ON := None |}
            (anchor_select
               {| gtu_GRANTEE_NAME := "ALICE"; gtu_ROLE := "ANALYST";
                  gtu_DELETED_ON := None |})).
  apply (parent_path_emitted store_A "ALICE").
  - vm_compute. tauto.
  - vm_compute. lia.
Defined.

(** C8 as stated fails: the row of [ANALYST -> READER] has level 1, and
    the path string of its first 1 - 1 segments is empty, which is not
    emitted; its parent [ANALYST] is the path string of its first
    segment. *)
Lemma first_segments_off_by_one :
  exists r,
    In r (user_role_hierarchy store_A "ALICE")
    /\ path_string r = "ANALYST -> READER"%string
    /\ 0 < level r
    /\ level r < 20
    /\ ~ In (path_prefix (level r - 1) (path_string r))
            (map row_4 (cte_query store_A "ALICE"))
    /\ In (path_prefix (level r) (path_string r))
          (map row_4 (cte_query store_A "ALICE")).
Proof.
  exists (recursive_select
            {| gtr_GRANTEE_NAME := "ANALYST"; gtr_NAME := "READER";
               gtr_PRIVILEGE := "USAGE"; gtr_GRANTED_ON := "ROLE";
               gtr_DELETED_ON := None |}
            (anchor_select
               {| gtu_GRANTEE_NAME := "ALICE"; gtu_ROLE := "ANALYST";
                  gtu_DELETED_ON := None |})).
  split; [vm_compute; tauto|]. split; [reflexivity|].
  split; [vm_compute; lia|]. split; [vm_compute; lia|].
  split; [|vm_compute; tauto].
  vm_compute. intros [H | [H | []]]; discriminate H.
Qed.

End HierarchyResults.

(* ================================================================== *)
(** * The worker: results *)

Section WorkerResults.

Import Worker Scenarios.

(** [stop] before the request: nothing is emitted. *)
Lemma run_stopped_before (running : nat -> bool) (net : get_result) :
  running 0 = false -> run running net = ([], Returned).
Proof. intros H. unfold run. now rewrite H. Qed.

(** [stop] while the request is in flight: nothing is emitted. *)
Lemma run_stopped_in_flight (running : nat -> bool) (net : get_result) :
  running 0 = true -> running 1 = false -> run running net = ([], Returned).
Proof.
  intros H0 H1. unfold run. rewrite H0. cbn [negb].
  destruct net as [msg | msg | r]; cbn [try_body except_clauses].
  - now rewrite H1.
  - now rewrite H1.
  - destruct (raise_for_status r) as [e|] eqn:E.
    + unfold raise_for_status in E.
      destruct ((400 <=? status_code r) && (status_code r <? 600)); [|discriminate].
      injection E as <-. cbn [except_clauses]. now rewrite H1.
    + now rewrite H1.
Qed.

(** Without [stop], and with an error body the handler can read, exactly
    one signal is emitted. *)
Lemma run_emits_once (running : nat -> bool) (net : get_result) :
  (forall k, running k = true) ->
  error_body_readable net ->
  exists s, run running net = ([s], Returned).
Proof.
  intros Hrun Hbody. unfold run. rewrite Hrun. cbn [negb].
  destruct net as [msg | msg | r]; cbn [try_body except_clauses].
  - rewrite Hrun. eexists; reflexivity.
  - rewrite Hrun. eexists; reflexivity.
  - cbn [error_body_readable] in Hbody. destruct Hbody as [Hdec Hbody].
    destruct (raise_for_status r) as [e|] eqn:E.
    + destruct Hbody as [Hb | (m & Hm)]; [discriminate|].
      unfold raise_for_status in E.
      destruct ((400 <=? status_code r) && (status_code r <? 600)); [|discriminate].
      injection E as <-. cbn [except_clauses]. rewrite Hrun, Hm.
      eexists; reflexivity.
    + rewrite Hrun. cbn [negb].
      destruct (json_of r) as [v | f].
      * destruct v; try (eexists; reflexivity).
        destruct (is_key "error" items); eexists; reflexivity.
      * destruct f; [| | congruence];
          cbn [exn_of_decode_failure except_clauses];
          rewrite Hrun; eexists; reflexivity.
Qed.

Example run_stopped_in_flight_example :
  run stopped_in_flight (GetResponse ok_with_paths) = ([], Returned).
Proof. reflexivity. Qed.

(** C3 at its failing input.  [stop] is never called and the server
    answers with status 500 and the JSON body [null]: the handler of
    [HTTPError] evaluates ["error" in None], the [TypeError] leaves [run],
    and no signal is emitted. *)
Theorem no_outcome_on_null_error_body :
  (forall k, never_stopped k = true)
  /\ run never_stopped error_with_null_body = ([], Escaped TypeError).
Proof. split; reflexivity. Qed.

(** C9, with the branch for error objects.  After a response that is no
    HTTP error and whose body parses, and without [stop]: a list is
    emitted through [data_ready]; a dictionary with the key [error] gives
    the message [Backend error: <error> (Details: <details or N/A>)];
    every other value gives [Received unexpected data format from the
    server.] *)
Theorem parsed_body_outcome (running : nat -> bool) (r : http_response) (v : json) :
  running 0 = true ->
  running 1 = true ->
  raise_for_status r = None ->
  json_of r = inl v ->
  (forall data, v = JList data ->
     run running (GetResponse r) = ([data_ready data], Returned))
  /\ (forall items, v = JDict items -> is_key "error" items = true ->
        run running (GetResponse r)
        = ([error_occurred
              [Text "Backend error: ";
               Str (match dict_lookup "error" items with
                    | Some x => x | None => JNull end);
               Text " (Details: ";
               Str (match dict_lookup "details" items with
                    | Some x => x | None => JString "N/A" end);
               Text ")"]], Returned))
  /\ ((forall data, v <> JList data) ->
      (forall items, v = JDict items -> is_key "error" items = false) ->
      run running (GetResponse r)
      = ([error_occurred
            [Text "Received unexpected data format from the server."]],
         Returned)).
Proof.
  intros H0 H1 Hs Hj. unfold run. rewrite H0. cbn [negb try_body].
  rewrite Hs, H1, Hj. cbn [negb]. split; [|split].
  - now intros data ->.
  - intros items -> Hk. now rewrite Hk.
  - intros Hl Hd. destruct v; try reflexivity.
    + now destruct (Hl items).
    + now rewrite (Hd items eq_refl).
Qed.

Lemma parsed_body_outcome_witness :
  run never_stopped (GetResponse ok_with_paths)
  = ([data_ready [JString "ANALYST"; JString "ANALYST -> READER"]], Returned).
Proof.
  apply (proj1 (parsed_body_outcome never_stopped ok_with_paths
                  (JList [JString "ANALYST"; JString "ANALYST -> READER"])
                  eq_refl eq_refl eq_refl eq_refl)).
  reflexivity.
Defined.

(** C9 as stated fails: the body [{"error": "boom"}] with status 200 is no
    list, and the signal emitted is not the unexpected-format message. *)
Lemma error_object_is_relayed :
  raise_for_status ok_with_error_object = None
  /\ (exists items, json_of ok_with_error_object = inl (JDict items))
  /\ run never_stopped (GetResponse ok_with_error_object)
     = ([error_occurred
           [Text "Backend error: "; Str (JString "boom");
            Text " (Details: "; Str (JString "N/A"); Text ")"]], Returned)
  /\ run never_stopped (GetResponse ok_with_error_object)
     <> ([error_occurred unexpected_format_message], Returned).
Proof.
  split; [reflexivity|]. split; [eexists; reflexivity|].
  split; [reflexivity | discriminate].
Qed.

End WorkerResults.

(* ================================================================== *)
(** * The recursive query: further results *)

Section HierarchyMore.

Import PyStr Backend Stores.

Lemma cte_eval_incl (st : grant_store) (working result : list urh_row) :
  cte_eval st working result -> incl working result.
Proof.
  intros H. inversion H; subst; intros x Hx; [exact Hx|].
  apply in_or_app. now left.
Qed.

Lemma cte_eval_closed (st : grant_store) (working result : list urh_row) :
  cte_eval st working result ->
  forall u r, In u result -> child_of st u r -> In r result.
Proof.
  induction 1 as [|working rest Hne Hrest IH]; intros u r Hu Hc.
  - contradiction.
  - apply in_app_or in Hu. apply in_or_app. right.
    destruct Hu as [Hu | Hu].
    + apply (cte_eval_incl _ _ _ Hrest), in_recursive_member. eauto.
    + eapply IH; eauto.
Qed.

(** X1.  On every store, cyclic ones included, the recursive relation has
    exactly one value, and 21 rounds of the iteration reach it: more
    rounds change nothing. *)
Theorem recursive_query_terminates (st : grant_store) (p : string) :
  cte_eval st (anchor_member st p) (user_role_hierarchy st p)
  /\ (forall result,
         cte_eval st (anchor_member st p) result ->
         result = user_role_hierarchy st p)
  /\ (forall fuel,
         21 <= fuel ->
         iterate st fuel (anchor_member st p) = user_role_hierarchy st p).
Proof.
  split; [apply user_role_hierarchy_evaluates|]. split.
  - intros result H. eapply cte_eval_deterministic; eauto.
    apply user_role_hierarchy_evaluates.
  - intros fuel Hf. eapply cte_eval_deterministic.
    + apply (iterate_evaluates st fuel 0);
        [apply anchor_at_level_0 | lia | lia].
    + apply user_role_hierarchy_evaluates.
Qed.

Lemma recursive_query_terminates_witness :
  iterate cyclic_store 40 (anchor_member cyclic_store "ALICE")
  = user_role_hierarchy cyclic_store "ALICE".
Proof.
  apply (proj2 (proj2 (recursive_query_terminates cyclic_store "ALICE")) 40).
  lia.
Defined.

(** X2.  The rows of the hierarchy are exactly the anchor rows and the
    rows the recursive member produces from a row of the hierarchy: no
    grant that can be used from a row below level 20 is left out. *)
Theorem hierarchy_rows_characterised (st : grant_store) (p : string) (r : urh_row) :
  In r (user_role_hierarchy st p)
  <-> In r (anchor_member st p)
      \/ exists u, In u (user_role_hierarchy st p) /\ child_of st u r.
Proof.
  split; [apply hierarchy_origin|].
  pose proof (user_role_hierarchy_evaluates st p) as He.
  intros [Ha | (u & Hu & Hc)].
  - now apply (cte_eval_incl _ _ _ He).
  - eapply cte_eval_closed; eauto.
Qed.

(** *** Grants the query cannot use *)

Lemma filter_implied {A} (f g : A -> bool) (l : list A) :
  (forall x, f x = true -> g x = true) ->
  filter f (filter g l) = filter f l.
Proof.
  intros H. induction l as [|x l IH]; simpl; [reflexivity|].
  destruct (g x) eqn:Eg; simpl.
  - now rewrite IH.
  - destruct (f x) eqn:Ef; [|exact IH].
    apply H in Ef. congruence.
Qed.

Lemma flat_map_filter_nil {A B} (f : A -> list B) (g : A -> bool) (l : list A) :
  (forall x, g x = false -> f x = []) ->
  flat_map f (filter g l) = flat_map f l.
Proof.
  intros H. induction l as [|x l IH]; simpl; [reflexivity|].
  destruct (g x) eqn:Eg; simpl.
  - now rewrite IH.
  - now rewrite (H x Eg), IH.
Qed.

Lemma anchor_member_live (st : grant_store) (p : string) :
  anchor_member (live_store st) p = anchor_member st p.
Proof.
  unfold anchor_member, live_store. cbn [grants_to_users]. f_equal.
  apply filter_implied. intros g H. unfold anchor_where in H.
  apply andb_prop in H. tauto.
Qed.

Lemma recursive_member_live (st : grant_store) (working : list urh_row) :
  recursive_member (live_store st) working = recursive_member st working.
Proof.
  unfold recursive_member, live_store. cbn [grants_to_roles].
  apply flat_map_filter_nil. intros g Hg.
  replace (filter (fun urh => recursive_on g urh && recursive_where g urh) working)
    with (@nil urh_row); [reflexivity|].
  symmetry. induction working as [|u working IH]; simpl; [reflexivity|].
  rewrite <- IH. unfold recursive_where. unfold live_gtr in Hg.
  rewrite Hg. simpl. now rewrite andb_false_r.
Qed.

Lemma iterate_live (st : grant_store) (fuel : nat) :
  forall working,
    iterate (live_store st) fuel working = iterate st fuel working.
Proof.
  induction fuel as [|fuel IH]; intros [|w working]; try reflexivity.
  cbn [iterate]. now rewrite recursive_member_live, IH.
Qed.

(** X3.  Deleted grants, and role grants other than USAGE on a ROLE, have
    no influence: dropping them from the store leaves the fetched rows
    and the answer of the route unchanged. *)
Theorem dead_grants_ignored (st : grant_store) (p : string) (param : option string) :
  cte_query (live_store st) p = cte_query st p
  /\ get_role_hierarchy_route (healthy (live_store st)) param
     = get_role_hierarchy_route (healthy st) param.
Proof.
  assert (H : forall q, cte_query (live_store st) q = cte_query st q).
  { intros q. unfold cte_query, user_role_hierarchy.
    now rewrite anchor_member_live, iterate_live. }
  split; [apply H|].
  destruct param as [q|]; [|reflexivity].
  destruct (string_dec q "") as [-> | Hq]; [reflexivity|].
  now rewrite !(route_healthy _ _ Hq), H.
Qed.

(** *** The order of the stored rows *)

Lemma Permutation_filter' {A} (f : A -> bool) (l l' : list A) :
  Permutation l l' -> Permutation (filter f l) (filter f l').
Proof.
  induction 1 as [| x l l' _ IH | x y l | l l' l'' _ IH1 _ IH2]; simpl.
  - constructor.
  - destruct (f x); [now constructor | exact IH].
  - destruct (f x), (f y); try reflexivity. apply perm_swap.
  - now transitivity (filter f l').
Qed.

Lemma flat_map_pointwise_perm {A B} (f g : A -> list B) (l : list A) :
  (forall x, Permutation (f x) (g x)) ->
  Permutation (flat_map f l) (flat_map g l).
Proof.
  intros H. induction l as [|x l IH]; simpl; [constructor|].
  now apply Permutation_app.
Qed.

Lemma anchor_member_perm (st st' : grant_store) (p : string) :
  same_rows st st' -> Permutation (anchor_member st p) (anchor_member st' p).
Proof.
  intros [Hu _]. unfold anchor_member.
  now apply Permutation_map, Permutation_filter'.
Qed.

Lemma recursive_member_perm (st st' : grant_store) (working working' : list urh_row) :
  same_rows st st' ->
  Permutation working working' ->
  Permutation (recursive_member st working) (recursive_member st' working').
Proof.
  intros [_ Hr] Hw. unfold recursive_member.
  transitivity
    (flat_map
       (fun gtr =>
          map (recursive_select gtr)
              (filter (fun urh => recursive_on gtr urh && recursive_where gtr urh)
                      working'))
       (grants_to_roles st)).
  - apply flat_map_pointwise_perm. intros g.
    now apply Permutation_map, Permutation_filter'.
  - now apply Permutation_flat_map.
Qed.

Lemma iterate_perm (st st' : grant_store) (fuel : nat) :
  same_rows st st' ->
  forall working working',
    Permutation working working' ->
    Permutation (iterate st fuel working) (iterate st' fuel working').
Proof.
  intros Hs. induction fuel as [|fuel IH]; intros working working' Hw.
  - destruct working, working'; simpl; constructor.
  - destruct working as [|w working].
    + apply Permutation_nil in Hw. subst. constructor.
    + destruct working' as [|w' working'].
      * apply Permutation_sym, Permutation_nil in Hw. discriminate.
      * cbn [iterate]. apply Permutation_app; [exact Hw|].
        apply IH. now apply recursive_member_perm.
Qed.

Lemma cte_query_perm (st st' : grant_store) (p : string) :
  same_rows st st' ->
  map row_4 (cte_query st p) = map row_4 (cte_query st' p).
Proof.
  intros Hs. apply sorted_paths_unique; try apply cte_query_sorted.
  rewrite <- (cte_query_paths st p), <- (cte_query_paths st' p).
  apply Permutation_map. unfold user_role_hierarchy.
  apply iterate_perm; [exact Hs|]. now apply anchor_member_perm.
Qed.

(** X4.  The answer does not depend on the order in which the views list
    their rows: two stores with the same rows give the same path strings
    in the same order, and the same answer of the route. *)
Theorem row_order_irrelevant (st st' : grant_store) (p : string)
    (param : option string) :
  same_rows st st' ->
  map row_4 (cte_query st p) = map row_4 (cte_query st' p)
  /\ get_role_hierarchy_route (healthy st) param
     = get_role_hierarchy_route (healthy st') param.
Proof.
  intros Hs. split; [now apply cte_query_perm|].
  destruct param as [q|]; [|reflexivity].
  destruct (string_dec q "") as [-> | Hq]; [reflexivity|].
  rewrite !(route_healthy _ _ Hq).
  pose proof (cte_query_perm st st' (upper (strip q)) Hs) as H.
  destruct (cte_query st (upper (strip q))) as [|a l] eqn:E1;
    destruct (cte_query st' (upper (strip q))) as [|a' l'] eqn:E2;
    try discriminate H; [reflexivity|].
  now rewrite H.
Qed.

Lemma row_order_irrelevant_witness :
  map row_4 (cte_query diamond_store "ALICE")
  = map row_4 (cte_query diamond_store_reversed "ALICE")
  /\ get_role_hierarchy_route (healthy diamond_store) (Some "alice"%string)
     = get_role_hierarchy_route (healthy diamond_store_reversed)
         (Some "alice"%string).
Proof.
  apply (row_order_irrelevant diamond_store diamond_store_reversed "ALICE"
           (Some "alice"%string)).
  split; apply Permutation_rev.
Defined.

End HierarchyMore.

(* ================================================================== *)
(** * Normalising the parameter: further results *)

Section NormalisationMore.

Import PyStr Backend Stores Scenarios Unicode.

Lemma isspace_upper_char (c : ascii) : isspace (upper_char c) = isspace c.
Proof. destruct c as [[] [] [] [] [] [] [] []]; reflexivity. Qed.

Lemma isspace_lower_char (c : ascii) : isspace (lower_char c) = isspace c.
Proof. destruct c as [[] [] [] [] [] [] [] []]; reflexivity. Qed.

Lemma upper_char_not_lower (c : ascii) :
  (97 <=? nat_of_ascii (upper_char c)) && (nat_of_ascii (upper_char c) <=? 122)
  = false.
Proof. destruct c as [[] [] [] [] [] [] [] []]; reflexivity. Qed.

Lemma upper_char_idempotent (c : ascii) : upper_char (upper_char c) = upper_char c.
Proof. destruct c as [[] [] [] [] [] [] [] []]; reflexivity. Qed.

Lemma upper_lower_char (c : ascii) : upper_char (lower_char c) = upper_char c.
Proof. destruct c as [[] [] [] [] [] [] [] []]; reflexivity. Qed.

Lemma map_chars_compose (f g : ascii -> ascii) (s : string) :
  (forall c, f (g c) = f c) -> map_chars f (map_chars g s) = map_chars f s.
Proof.
  intros H. induction s as [|c s IH]; simpl; [reflexivity|].
  now rewrite H, IH.
Qed.

Lemma lstrip_map_chars (f : ascii -> ascii) (s : string) :
  (forall c, isspace (f c) = isspace c) ->
  lstrip (map_chars f s) = map_chars f (lstrip s).
Proof.
  intros H. induction s as [|c s IH]; simpl; [reflexivity|].
  rewrite H. now destruct (isspace c).
Qed.

Lemma rstrip_map_chars (f : ascii -> ascii) (s : string) :
  (forall c, isspace (f c) = isspace c) ->
  rstrip (map_chars f s) = map_chars f (rstrip s).
Proof.
  intros H. induction s as [|c s IH]; simpl; [reflexivity|].
  rewrite IH, H. destruct (rstrip s); simpl; [|reflexivity].
  now destruct (isspace c).
Qed.

Lemma strip_map_chars (f : ascii -> ascii) (s : string) :
  (forall c, isspace (f c) = isspace c) ->
  strip (map_chars f s) = map_chars f (strip s).
Proof.
  intros H. unfold strip. now rewrite lstrip_map_chars, rstrip_map_chars.
Qed.

Lemma lstrip_app_text (p r : string) :
  all_space p = false -> lstrip (p ++ r) = (lstrip p ++ r)%string.
Proof.
  induction p as [|c p IH]; simpl; [discriminate|].
  destruct (isspace c); simpl; [exact IH | reflexivity].
Qed.

Lemma strip_padding (l p r : string) :
  all_space l = true -> all_space r = true ->
  strip (l ++ p ++ r) = strip p.
Proof.
  intros Hl Hr. unfold strip. rewrite (lstrip_app_space _ _ Hl).
  destruct (all_space p) eqn:Hp.
  - rewrite (lstrip_app_space _ _ Hp), (lstrip_all_space _ Hr).
    now rewrite (lstrip_all_space _ Hp).
  - rewrite (lstrip_app_text _ _ Hp). now apply rstrip_app_space.
Qed.

Lemma normal_form_upper (l p r : string) :
  all_space l = true -> all_space r = true ->
  upper (strip (l ++ upper p ++ r)) = upper (strip p).
Proof.
  intros Hl Hr. rewrite (strip_padding _ _ _ Hl Hr). unfold upper.
  rewrite (strip_map_chars _ _ isspace_upper_char).
  apply map_chars_compose, upper_char_idempotent.
Qed.

Lemma normal_form_lower (l p r : string) :
  all_space l = true -> all_space r = true ->
  upper (strip (l ++ lower p ++ r)) = upper (strip p).
Proof.
  intros Hl Hr. rewrite (strip_padding _ _ _ Hl Hr). unfold upper, lower.
  rewrite (strip_map_chars _ _ isspace_lower_char).
  apply map_chars_compose, upper_lower_char.
Qed.

Lemma padded_nonempty (l p r : string) :
  p <> ""%string -> (l ++ p ++ r)%string <> ""%string.
Proof.
  intros Hp H. destruct l; [|discriminate]. destruct p; [congruence | discriminate].
Qed.

Lemma map_chars_nonempty (f : ascii -> ascii) (p : string) :
  p <> ""%string -> map_chars f p <> ""%string.
Proof. destruct p; [congruence | discriminate]. Qed.

Lemma try_block_trace (d : driver) (p q u : string) :
  fst (try_block d p u) = fst (try_block d q u).
Proof.
  destruct d as [st c1 c2 c3 c4 c5 c6].
  unfold try_block, inner_body, inner_finally, try_finally, bind, invoke, ret.
  cbn [store connect_raises cursor_raises execute_raises
       fetchall_raises cursor_close_raises connection_close_raises].
  destruct c1, c2, c3, c4, c5, c6; try destruct (cte_query st u); reflexivity.
Qed.

Lemma case_and_padding_on_ascii_methods (d : driver) (p l r : string) :
  p <> ""%string ->
  all_space l = true ->
  all_space r = true ->
  fst (get_role_hierarchy_route d (Some (l ++ upper p ++ r)%string))
  = fst (get_role_hierarchy_route d (Some p))
  /\ fst (get_role_hierarchy_route d (Some (l ++ lower p ++ r)%string))
     = fst (get_role_hierarchy_route d (Some p))
  /\ (cte_query (store d) (upper (strip p)) <> [] ->
      get_role_hierarchy_route (healthy (store d)) (Some (l ++ lower p ++ r)%string)
      = get_role_hierarchy_route (healthy (store d)) (Some p)).
Proof.
  intros Hp Hl Hr.
  assert (Hu : (l ++ upper p ++ r)%string <> ""%string)
    by (apply padded_nonempty; now apply map_chars_nonempty).
  assert (Hlo : (l ++ lower p ++ r)%string <> ""%string)
    by (apply padded_nonempty; now apply map_chars_nonempty).
  split; [|split].
  - rewrite (route_trace _ _ Hu), (route_trace _ _ Hp).
    rewrite (normal_form_upper _ _ _ Hl Hr). apply try_block_trace.
  - rewrite (route_trace _ _ Hlo), (route_trace _ _ Hp).
    rewrite (normal_form_lower _ _ _ Hl Hr). apply try_block_trace.
  - intros Hne. rewrite (route_healthy _ _ Hlo), (route_healthy _ _ Hp).
    rewrite (normal_form_lower _ _ _ Hl Hr).
    destruct (cte_query (store d) (upper (strip p))); [contradiction | reflexivity].
Qed.

Lemma ascii_only_padded (l s r : string) :
  all_space l = true -> all_space r = true -> ascii_only s = true ->
  ascii_only (l ++ s ++ r) = true.
Proof.
  intros Hl Hr Hs. rewrite !ascii_only_app.
  now rewrite (all_space_ascii_only l Hl), (all_space_ascii_only r Hr), Hs.
Qed.

(** X5.  An ASCII parameter may be sent with its letters in upper or in
    lower case and with ASCII whitespace around it: the route then makes
    the same driver calls, with the same name in the statement, and when
    that name has a hierarchy the whole answer is the same. *)
Theorem parameter_case_and_padding_ignored (m : str_methods) (d : driver)
    (p l r : string) :
  agrees_on_ascii m ->
  ascii_only p = true ->
  p <> ""%string ->
  all_space l = true ->
  all_space r = true ->
  fst (get_role_hierarchy_route_with m d (Some (l ++ upper p ++ r)%string))
  = fst (get_role_hierarchy_route_with m d (Some p))
  /\ fst (get_role_hierarchy_route_with m d (Some (l ++ lower p ++ r)%string))
     = fst (get_role_hierarchy_route_with m d (Some p))
  /\ (cte_query (store d) (str_upper m (str_strip m p)) <> [] ->
      get_role_hierarchy_route_with m (healthy (store d))
        (Some (l ++ lower p ++ r)%string)
      = get_role_hierarchy_route_with m (healthy (store d)) (Some p)).
Proof.
  intros Hm Ha Hp Hl Hr.
  assert (Hau : ascii_only (l ++ upper p ++ r) = true)
    by (apply ascii_only_padded; auto; now apply ascii_only_upper).
  assert (Hal : ascii_only (l ++ lower p ++ r) = true)
    by (apply ascii_only_padded; auto; now apply ascii_only_lower).
  destruct (case_and_padding_on_ascii_methods d p l r Hp Hl Hr) as (H1 & H2 & H3).
  split; [|split].
  - rewrite (route_with_on_ascii m d _ Hm Hau), (route_with_on_ascii m d _ Hm Ha).
    exact H1.
  - rewrite (route_with_on_ascii m d _ Hm Hal), (route_with_on_ascii m d _ Hm Ha).
    exact H2.
  - intros Hne. rewrite (normalise_on_ascii m p Hm Ha) in Hne.
    rewrite (route_with_on_ascii m (healthy (store d)) _ Hm Hal),
      (route_with_on_ascii m (healthy (store d)) _ Hm Ha).
    exact (H3 Hne).
Qed.

Lemma ascii_methods_agree : agrees_on_ascii ascii_methods.
Proof. intros s _. split; reflexivity. Qed.

Lemma parameter_case_and_padding_ignored_witness :
  get_role_hierarchy_route_with ascii_methods (healthy store_A)
    (Some "  alice "%string)
  = get_role_hierarchy_route_with ascii_methods (healthy store_A)
      (Some "AlIcE"%string).
Proof.
  apply (proj2 (proj2 (parameter_case_and_padding_ignored
                         ascii_methods (healthy store_A) "AlIcE" "  " " "
                         ascii_methods_agree eq_refl
                         ltac:(discriminate) eq_refl eq_refl))).
  discriminate.
Defined.

Lemma has_lower_upper (s : string) : has_lower (upper s) = false.
Proof.
  unfold upper. induction s as [|c s IH]; [reflexivity|].
  change (has_lower (map_chars upper_char (String c s)))
    with (((97 <=? nat_of_ascii (upper_char c))
           && (nat_of_ascii (upper_char c) <=? 122))
          || has_lower (map_chars upper_char s)).
  now rewrite upper_char_not_lower, IH.
Qed.

Lemma starts_with_space_upper (s : string) :
  starts_with_space (upper s) = starts_with_space s.
Proof. destruct s; simpl; [reflexivity | apply isspace_upper_char]. Qed.

Lemma ends_with_space_upper (s : string) :
  ends_with_space (upper s) = ends_with_space s.
Proof.
  unfold upper. induction s as [|c s IH]; [reflexivity|].
  destruct s as [|c' s].
  - simpl. apply isspace_upper_char.
  - exact IH.
Qed.

Lemma executed_name_on_ascii_methods (d : driver) (p : string) :
  (forall v ok,
      In {| call := Execute v; completed := ok |}
         (fst (get_role_hierarchy_route d (Some p))) ->
      has_lower v = false
      /\ starts_with_space v = false
      /\ ends_with_space v = false)
  /\ (forall r,
         In r (user_role_hierarchy (store d) (upper (strip p))) ->
         level r = 0 ->
         has_lower (granted_via_name r) = false).
Proof.
  split.
  - intros v ok H.
    destruct (string_dec p "") as [-> | Hp]; [contradiction|].
    rewrite (route_trace _ _ Hp) in H.
    apply executed_parameter in H. subst v.
    destruct (strip_split p) as (l & r & _ & _ & _ & Hs & He).
    rewrite has_lower_upper, starts_with_space_upper, ends_with_space_upper.
    auto.
  - intros r Hr Hl.
    apply hierarchy_origin in Hr. destruct Hr as [Hr | (u & _ & Hc)].
    + unfold anchor_member in Hr. apply in_map_iff in Hr.
      destruct Hr as (g & <- & Hg). apply filter_In in Hg.
      destruct Hg as [_ Hg]. unfold anchor_where in Hg.
      apply andb_prop in Hg. destruct Hg as [Hg _].
      apply String.eqb_eq in Hg. cbn [anchor_select granted_via_name].
      rewrite Hg. apply has_lower_upper.
    + apply child_level in Hc. lia.
Qed.

(** X6.  For an ASCII parameter, the name in an executed statement has no
    lower-case letter and no whitespace at either end, so such a request
    never reports a grantee stored under a name with a lower-case
    letter: every level-0 row names a grantee free of lower-case
    letters. *)
Theorem lower_case_grantee_never_matched (m : str_methods) (d : driver)
    (p : string) :
  agrees_on_ascii m ->
  ascii_only p = true ->
  (forall v ok,
      In {| call := Execute v; completed := ok |}
         (fst (get_role_hierarchy_route_with m d (Some p))) ->
      has_lower v = false
      /\ starts_with_space v = false
      /\ ends_with_space v = false)
  /\ (forall r,
         In r (user_role_hierarchy (store d) (str_upper m (str_strip m p))) ->
         level r = 0 ->
         has_lower (granted_via_name r) = false).
Proof.
  intros Hm Ha.
  rewrite (normalise_on_ascii m p Hm Ha), (route_with_on_ascii m d p Hm Ha).
  apply executed_name_on_ascii_methods.
Qed.

Lemma lower_case_grantee_never_matched_witness :
  has_lower "ALICE" = false
  /\ starts_with_space "ALICE" = false
  /\ ends_with_space "ALICE" = false.
Proof.
  apply (proj1 (lower_case_grantee_never_matched ascii_methods
                  (healthy store_A) " alice " ascii_methods_agree eq_refl)
               "ALICE"%string true).
  vm_compute. tauto.
Defined.

End NormalisationMore.

(* ================================================================== *)
(** * The route: further results *)

Section RouteMore.

Import PyStr Backend Wire Scenarios.

Lemma except_clauses_details (p : string) (e : Backend.exn) :
  exists msg status,
    except_clauses p e
    = (JDict [("error"%string, JString msg);
              ("details"%string, JString (str_exn e))], status)
    /\ (status = 404 \/ status = 500)
    /\ (status = 404 <->
        exists detail,
          e = ProgrammingError detail
          /\ str_in "object does not exist or not authorized" (lower detail)
             = true).
Proof.
  destruct e as [d | d | d]; cbn [except_clauses str_exn].
  - destruct (str_in "object does not exist or not authorized" (lower d)) eqn:E1.
    + eexists _, 404. split; [reflexivity|]. split; [auto|].
      split; [intros _; eauto | reflexivity].
    + destruct (str_in "connection_name" (lower d) && str_in "not found" (lower d));
        eexists _, 500; (split; [reflexivity|]); (split; [auto|]);
        (split; [discriminate|]); intros (d' & Hd & Hs); injection Hd as <-;
        congruence.
  - eexists _, 500. split; [reflexivity|]. split; [auto|].
    split; [discriminate|]. intros (d' & Hd & _). discriminate.
  - eexists _, 500. split; [reflexivity|]. split; [auto|].
    split; [discriminate|]. intros (d' & Hd & _). discriminate.
Qed.

(** X7.  Whatever the driver does, the route answers in one of three
    forms: status 200 with a non-empty array of strings; status 400 with
    the missing-parameter body, exactly when the parameter is missing or
    empty; or status 404 or 500 with an object holding a message and, as
    details, the text of the exception that left the [try] block. *)
Theorem response_forms (d : driver) (param : option string) :
  ((snd (snd (get_role_hierarchy_route d param)) = 200
    /\ exists paths,
        paths <> []
        /\ fst (snd (get_role_hierarchy_route d param)) = jsonify_strings paths)
   \/ (snd (get_role_hierarchy_route d param)
       = (JDict [("error"%string, JString "Missing 'user_name' parameter")], 400)
       /\ (param = None \/ param = Some ""%string))
   \/ ((snd (snd (get_role_hierarchy_route d param)) = 404
        \/ snd (snd (get_role_hierarchy_route d param)) = 500)
       /\ exists p e msg,
           param = Some p /\ p <> ""%string
           /\ raised_in_try d p = Some e
           /\ fst (snd (get_role_hierarchy_route d param))
              = JDict [("error"%string, JString msg);
                       ("details"%string, JString (str_exn e))]))
  /\ get_role_hierarchy_route d None
     = ([], (JDict [("error"%string, JString "Missing 'user_name' parameter")], 400))
  /\ get_role_hierarchy_route d (Some ""%string)
     = ([], (JDict [("error"%string, JString "Missing 'user_name' parameter")], 400)).
Proof.
  split; [|split; reflexivity].
  destruct param as [p|]; [|right; left; auto].
  destruct (string_dec p "") as [-> | Hp]; [right; left; auto|].
  rewrite (route_nonempty _ _ Hp).
  assert (Hraised :
            raised_in_try d p
            = match snd (try_block d p (upper (strip p))) with
              | Raised e => Some e
              | Normal _ => None
              end).
  { unfold raised_in_try.
    now destruct (try_block d p (upper (strip p))) as [t [resp | e]]. }
  destruct (try_block_cases d p (upper (strip p)))
    as [(e & He) | [(Hq & Hr) | (Hq & Hr)]];
    destruct (try_block d p (upper (strip p))) as [t o]; cbn [snd] in *; subst o;
    cbn [snd fst].
  - right; right.
    destruct (except_clauses_details p e) as (msg & status & -> & Hs & _).
    cbn [snd fst]. split; [tauto|]. exists p, e, msg. auto.
  - left. split; [reflexivity|]. eexists. split; [|reflexivity]. discriminate.
  - left. split; [reflexivity|]. eexists. split; [|reflexivity].
    intros H. apply map_eq_nil in H. contradiction.
Qed.

(** X8.  Status 404 is answered in one case only: a [ProgrammingError]
    left the [try] block and its text, in lower case, contains [object
    does not exist or not authorized]. *)
Theorem status_404_exactly (d : driver) (p : string) :
  p <> ""%string ->
  snd (snd (get_role_hierarchy_route d (Some p))) = 404
  <-> exists detail,
       raised_in_try d p = Some (ProgrammingError detail)
       /\ str_in "object does not exist or not authorized" (lower detail) = true.
Proof.
  intros Hp. rewrite (route_nonempty _ _ Hp). unfold raised_in_try.
  destruct (try_block_cases d p (upper (strip p)))
    as [(e & He) | [(Hq & Hr) | (Hq & Hr)]];
    destruct (try_block d p (upper (strip p))) as [t o]; cbn [snd] in *; subst o;
    cbn [snd].
  - destruct (except_clauses_details p e) as (msg & status & -> & _ & H404).
    cbn [snd]. rewrite H404. split.
    + intros (detail & -> & Hs). eauto.
    + intros (detail & He & Hs). injection He as ->. eauto.
  - split; [discriminate|]. intros (detail & H & _). discriminate.
  - split; [discriminate|]. intros (detail & H & _). discriminate.
Qed.

Lemma status_404_exactly_witness :
  snd (snd (get_role_hierarchy_route object_hidden (Some "alice"%string))) = 404.
Proof.
  apply (proj2 (status_404_exactly object_hidden "alice" ltac:(discriminate))).
  eexists. split; reflexivity.
Defined.

(** X9.  An exception raised while closing replaces the outcome of the
    request: when [cur.close()] raises, or when it succeeds and
    [connection.close()] raises, the answer is the one for that
    exception, also after a query that succeeded. *)
Theorem failed_close_masks_outcome (d : driver) (p : string) (e : Backend.exn) :
  p <> ""%string ->
  connect_raises d = None ->
  cursor_raises d = None ->
  cursor_close_raises d = Some e
  \/ (cursor_close_raises d = None /\ connection_close_raises d = Some e) ->
  snd (get_role_hierarchy_route d (Some p)) = except_clauses p e
  /\ (snd (snd (get_role_hierarchy_route d (Some p))) = 404
      \/ snd (snd (get_role_hierarchy_route d (Some p))) = 500).
Proof.
  intros Hp H1 H2 H3.
  assert (H : snd (get_role_hierarchy_route d (Some p)) = except_clauses p e).
  { rewrite (route_nonempty _ _ Hp).
    destruct d as [st c1 c2 c3 c4 c5 c6].
    cbn [connect_raises cursor_raises cursor_close_raises
         connection_close_raises] in *. subst c1 c2.
    unfold try_block, inner_body, inner_finally, try_finally, bind, invoke, ret.
    cbn [store connect_raises cursor_raises execute_raises
         fetchall_raises cursor_close_raises connection_close_raises].
    destruct H3 as [-> | [-> ->]];
      destruct c3, c4; try destruct c6;
      try destruct (cte_query st (upper (strip p))); reflexivity. }
  split; [exact H|]. rewrite H.
  destruct (except_clauses_details p e) as (msg & status & -> & Hs & _).
  exact Hs.
Qed.

Lemma failed_close_masks_outcome_witness :
  snd (get_role_hierarchy_route cursor_close_fails (Some "alice"%string))
  = except_clauses "alice" (OtherException "Failed to close cursor").
Proof.
  apply (proj1 (failed_close_masks_outcome cursor_close_fails "alice"
                  (OtherException "Failed to close cursor")
                  ltac:(discriminate) eq_refl eq_refl (or_introl eq_refl))).
Defined.

(** X10.  Once the cursor exists and neither close call raises, the
    cursor and the connection are closed before the route answers,
    whether the statement succeeds, finds nothing, or raises. *)
Theorem released_once_cursor_exists (d : driver) (p : string) :
  p <> ""%string ->
  connect_raises d = None ->
  cursor_raises d = None ->
  cursor_close_raises d = None ->
  connection_close_raises d = None ->
  In {| call := CursorClose; completed := true |}
     (fst (get_role_hierarchy_route d (Some p)))
  /\ released (fst (get_role_hierarchy_route d (Some p))).
Proof.
  intros Hp H1 H2 H3 H4. rewrite (route_trace _ _ Hp).
  destruct d as [st c1 c2 c3 c4 c5 c6].
  cbn [connect_raises cursor_raises cursor_close_raises
       connection_close_raises] in *. subst c1 c2 c5 c6.
  unfold released, try_block, inner_body, inner_finally, try_finally, bind,
    invoke, ret.
  cbn [store connect_raises cursor_raises execute_raises
       fetchall_raises cursor_close_raises connection_close_raises].
  destruct c3, c4; try destruct (cte_query st (upper (strip p))); cbn; tauto.
Qed.

Lemma released_once_cursor_exists_witness :
  In {| call := CursorClose; completed := true |}
     (fst (get_role_hierarchy_route access_denied (Some "alice"%string)))
  /\ released (fst (get_role_hierarchy_route access_denied (Some "alice"%string))).
Proof.
  apply (released_once_cursor_exists access_denied "alice");
    [discriminate | reflexivity | reflexivity | reflexivity | reflexivity].
Defined.



End RouteMore.

(* ================================================================== *)
(** * The worker: further results *)

Section WorkerMore.

Import PyStr Backend Worker Wire Scenarios.

(** X12.  After [stop], seen at the check before the request or at the
    first check after it, the worker returns without a signal, whatever
    the request did. *)
Theorem stop_suppresses_outcome (running : nat -> bool) (net : get_result) :
  running 0 = false \/ running 1 = false ->
  run running net = ([], Returned).
Proof.
  intros [H0 | H1].
  - now apply run_stopped_before.
  - destruct (running 0) eqn:H0.
    + now apply run_stopped_in_flight.
    + now apply run_stopped_before.
Qed.

Lemma stop_suppresses_outcome_witness :
  run stopped_in_flight (GetResponse ok_with_paths) = ([], Returned).
Proof.
  apply (stop_suppresses_outcome stopped_in_flight (GetResponse ok_with_paths)).
  right. reflexivity.
Defined.

Lemma append_details_dict (m : message) (items : list (string * json)) :
  exists m', append_details m (JDict items) = inl m'.
Proof.
  unfold append_details. cbn [py_in py_get].
  destruct (is_key "error" items), (is_key "details" items); eauto.
Qed.

Lemma append_details_raises (m : message) (v : json) (e : Worker.exn) :
  append_details m v = inr e ->
  (forall items, v <> JDict items) /\ (e = TypeError \/ e = AttributeError).
Proof.
  intros H. split.
  - intros items ->. destruct (append_details_dict m items) as (m' & Hm).
    congruence.
  - unfold append_details in H.
    destruct v; cbn [py_in py_get] in H;
      repeat match type of H with
             | context [if ?b then _ else _] => destruct b
             end;
      try discriminate H; injection H as <-; auto.
Qed.

(** X13.  No run emits more than one signal, whatever the request did and
    whenever [stop] was called. *)
Theorem at_most_one_signal (running : nat -> bool) (net : get_result) :
  List.length (fst (run running net)) <= 1.
Proof.
  unfold run. destruct (running 0); cbn [negb]; [|simpl; lia].
  destruct net as [msg | msg | r]; cbn [try_body except_clauses].
  - destruct (running 1); simpl; lia.
  - destruct (running 1); simpl; lia.
  - destruct (raise_for_status r) as [e|] eqn:E.
    + unfold raise_for_status in E.
      destruct ((400 <=? status_code r) && (status_code r <? 600)); [|discriminate].
      injection E as <-. cbn [except_clauses].
      destruct (running 1); [|simpl; lia].
      destruct (http_error_message r); simpl; lia.
    + destruct (running 1); cbn [negb]; [|simpl; lia].
      destruct (json_of r) as [v | f].
      * destruct v; try (simpl; lia).
        destruct (is_key "error" items); simpl; lia.
      * destruct f; cbn [exn_of_decode_failure except_clauses];
          destruct (running 2); simpl; lia.
Qed.

(** X14.  An exception leaves [run] only while the body of a response is
    read, and then no signal was emitted: either the response is an HTTP
    error whose body parses to something other than an object, and a
    [TypeError] or an [AttributeError] leaves the [HTTPError] handler;
    or [response.json()] raises [RecursionError], which no [except]
    clause catches.  A timeout, a connection failure, and a body that is
    no JSON never make [run] raise. *)
Theorem escape_only_while_reading_body (running : nat -> bool) (net : get_result)
    (e : Worker.exn) :
  snd (run running net) = Escaped e ->
  fst (run running net) = []
  /\ exists r,
      net = GetResponse r
      /\ ((400 <= status_code r < 600
           /\ exists v,
               json_of r = inl v
               /\ (forall items, v <> JDict items)
               /\ (e = TypeError \/ e = AttributeError))
          \/ (json_of r = inr DecodeRecursionError /\ e = RecursionError)).
Proof.
  unfold run. destruct (running 0); cbn [negb]; [|discriminate].
  destruct net as [msg | msg | r]; cbn [try_body except_clauses].
  - destruct (running 1); discriminate.
  - destruct (running 1); discriminate.
  - destruct (raise_for_status r) as [e0|] eqn:E.
    + unfold raise_for_status in E.
      destruct ((400 <=? status_code r) && (status_code r <? 600)) eqn:Es;
        [|discriminate].
      injection E as <-. cbn [except_clauses].
      destruct (running 1); [|discriminate].
      unfold http_error_message.
      destruct (json_of r) as [v | f] eqn:Ej.
      * destruct (append_details _ v) as [m | e'] eqn:Ea; [discriminate|].
        cbn [snd fst app]. intros H. injection H as <-.
        apply append_details_raises in Ea. destruct Ea as [Hd He].
        split; [reflexivity|]. exists r. split; [reflexivity|]. left.
        apply andb_prop in Es. destruct Es as [E1 E2].
        apply Nat.leb_le in E1. apply Nat.ltb_lt in E2.
        split; [lia|]. exists v. auto.
      * destruct f; try discriminate.
        cbn [snd fst app]. intros H. injection H as <-.
        split; [reflexivity|]. exists r. split; [reflexivity|]. now right.
    + destruct (running 1); cbn [negb]; [|discriminate].
      destruct (json_of r) as [v | f] eqn:Ej.
      * destruct v; try discriminate.
        destruct (is_key "error" items); discriminate.
      * destruct f; cbn [exn_of_decode_failure except_clauses];
          try (destruct (running 2); discriminate).
        cbn [snd fst app]. intros H. injection H as <-.
        split; [reflexivity|]. exists r. split; [reflexivity|]. now right.
Qed.

Lemma escape_only_while_reading_body_witness :
  fst (run never_stopped body_nested_too_deeply) = []
  /\ exists r,
      body_nested_too_deeply = GetResponse r
      /\ ((400 <= status_code r < 600
           /\ exists v,
               json_of r = inl v
               /\ (forall items, v <> JDict items)
               /\ (RecursionError = TypeError \/ RecursionError = AttributeError))
          \/ (json_of r = inr DecodeRecursionError
              /\ RecursionError = RecursionError)).
Proof.
  apply (escape_only_while_reading_body never_stopped body_nested_too_deeply
           RecursionError).
  reflexivity.
Defined.

(** X15.  Without [stop], exactly one signal is emitted and [run] returns
    normally, provided reading the body does not raise [RecursionError]
    and the body of an HTTP error response is an object or no JSON at
    all: a timeout, a connection failure, an undecodable body and a body
    of the wrong shape each give one [error_occurred]. *)
Theorem one_signal_without_stop (running : nat -> bool) (net : get_result) :
  (forall k, running k = true) ->
  (forall r, net = GetResponse r ->
             json_of r <> inr DecodeRecursionError
             /\ (400 <= status_code r < 600 ->
                 (exists items, json_of r = inl (JDict items))
                 \/ (exists f, json_of r = inr f))) ->
  exists s, run running net = ([s], Returned).
Proof.
  intros Hrun Hbody. apply run_emits_once; [exact Hrun|].
  destruct net as [msg | msg | r]; cbn [error_body_readable]; auto.
  destruct (Hbody r eq_refl) as [Hdec Hshape]. split; [exact Hdec|].
  unfold raise_for_status.
  destruct ((400 <=? status_code r) && (status_code r <? 600)) eqn:Es; [|auto].
  right. apply andb_prop in Es. destruct Es as [E1 E2].
  apply Nat.leb_le in E1. apply Nat.ltb_lt in E2.
  unfold http_error_message.
  destruct (Hshape (conj E1 E2)) as [(items & E) | (f & E)]; rewrite E in *.
  - apply append_details_dict.
  - destruct f; [eauto | eauto | congruence].
Qed.

Lemma one_signal_without_stop_witness :
  exists s, run never_stopped (GetTimeout "Read timed out.") = ([s], Returned).
Proof.
  apply (one_signal_without_stop never_stopped (GetTimeout "Read timed out."));
    [reflexivity | discriminate].
Defined.

(** X16.  The worker and the route together.  Without [stop], whatever
    the route answers reaches the window as exactly one signal and no
    exception leaves [run]: a 200 answer arrives through [data_ready]
    with the strings of the body; any other answer arrives through
    [error_occurred] as [HTTP error: <status> <reason> - <error>],
    followed by the details when the body has them. *)
Theorem route_answer_gives_one_signal (d : driver) (reason_phrase user_name : string)
    (running : nat -> bool) :
  (forall k, running k = true) ->
  (exists paths,
      snd (get_role_hierarchy_route d (Some user_name))
      = (jsonify_strings paths, 200)
      /\ run running (exchange d reason_phrase user_name)
         = ([data_ready (map JString paths)], Returned))
  \/ (exists msg details status,
         snd (get_role_hierarchy_route d (Some user_name))
         = (jsonify_error msg details, status)
         /\ status <> 200
         /\ run running (exchange d reason_phrase user_name)
            = ([error_occurred
                  ([Text "HTTP error: "; Int status; Text " ";
                    Text reason_phrase; Text " - "; Str (JString msg)]
                   ++ match details with
                      | Some text =>
                          [Text " (Details: "; Str (JString text); Text ")"]
                      | None => []
                      end)],
               Returned)).
Proof.
  intros Hrun. unfold exchange, served.
  assert (Hok : forall paths,
             snd (get_role_hierarchy_route d (Some user_name))
             = (jsonify_strings paths, 200) ->
             run running
               (GetResponse
                  {| status_code := snd (snd (get_role_hierarchy_route d (Some user_name)));
                     reason := reason_phrase;
                     json_of := inl (fst (snd (get_role_hierarchy_route d (Some user_name)))) |})
             = ([data_ready (map JString paths)], Returned)).
  { intros paths E. rewrite E. unfold run. rewrite Hrun. cbn [negb try_body].
    unfold raise_for_status. cbn [status_code snd fst json_of].
    cbn. now rewrite Hrun. }
  destruct (route_cases d (Some user_name))
    as [(msg & det & status & E & Hs) | [(p & _ & _ & _ & E) | (p & _ & _ & _ & E)]].
  - right.
    assert (H45 : status = 400 \/ status = 404 \/ status = 500).
    { destruct (string_dec user_name "") as [-> | Hp].
      - cbn in E. injection E as _ <-. auto.
      - pose proof (route_status d user_name Hp) as H. cbv zeta in H.
        rewrite E in H. cbn [snd] in H. tauto. }
    exists msg, det, status. split; [exact E|]. split; [exact Hs|].
    rewrite E. unfold run. rewrite Hrun. cbn [negb try_body].
    unfold raise_for_status. cbn [status_code snd fst json_of].
    destruct H45 as [-> | [-> | ->]]; cbn [Nat.leb Nat.ltb andb except_clauses];
      rewrite Hrun; unfold http_error_message;
      cbn [status_code reason json_of]; destruct det; reflexivity.
  - left. eexists. split; [exact E|]. now apply Hok.
  - left. eexists. split; [exact E|]. now apply Hok.
Qed.

Lemma route_answer_gives_one_signal_witness :
  run never_stopped (exchange object_hidden "NOT FOUND" "alice")
  = ([error_occurred
        [Text "HTTP error: "; Int 404; Text " "; Text "NOT FOUND"; Text " - ";
         Str (JString "User 'alice' may not exist, or the connecting role lacks permissions to view its grants or the ACCOUNT_USAGE schema.");
         Text " (Details: ";
         Str (JString "SQL compilation error: Object does not exist or not authorized.");
         Text ")"]],
     Returned).
Proof.
  destruct (route_answer_gives_one_signal object_hidden "NOT FOUND" "alice"
              never_stopped (fun _ => eq_refl))
    as [(paths & E & _) | (msg & details & status & E & _ & H)].
  - discriminate E.
  - destruct details as [text|]; vm_compute in E; [|discriminate E].
    injection E as <- <- <-. exact H.
Defined.

End WorkerMore.

(* ================================================================== *)
(** * The window: results *)

Section ClientResults.

Import PyStr Backend Worker Wire Client Scenarios Unicode.

Lemma strip_idempotent (s : string) : strip (strip s) = strip s.
Proof.
  symmetry. apply trimmed_strip.
  destruct (strip_split s) as (l & r & _ & _ & _ & Hs & He).
  exists ""%string, ""%string.
  split; [reflexivity|]. split; [reflexivity|].
  split; [simpl; now rewrite string_app_nil_r|]. now split.
Qed.

Lemma nonempty_iff (s : string) : nonempty s = true <-> s <> ""%string.
Proof. destruct s; simpl; split; congruence. Qed.

Lemma item_texts_shown (l : list string) :
  item_texts (map Some l) = filter nonempty l.
Proof.
  induction l as [|x l IH]; simpl; [reflexivity|].
  destruct (nonempty x); now rewrite IH.
Qed.

Lemma written_lines_concat (texts : list string) :
  texts <> [] ->
  written_lines texts = (String.concat newline texts ++ newline)%string.
Proof.
  induction texts as [|a texts IH]; intros Hne; [congruence|].
  destruct texts as [|b texts].
  - cbn [written_lines String.concat]. now rewrite string_app_nil_r.
  - change (written_lines (a :: b :: texts))
      with (a ++ newline ++ written_lines (b :: texts))%string.
    rewrite IH by discriminate.
    change (String.concat newline (a :: b :: texts))
      with (a ++ newline ++ String.concat newline (b :: texts))%string.
    now rewrite !string_app_assoc.
Qed.



(** X17.  When the worker has finished after a list was received, the
    window is ready again and [on_fetch_finished] agrees with
    [populate_table]: the fetch button is enabled, the worker is
    forgotten, the table is untouched, and copying and saving stay
    enabled exactly when the list is shown whole. *)
Theorem finished_agrees_with_populate (w : window) (grant_chains_list : list string) :
  let shown := populate_table w grant_chains_list in
  let ready := on_fetch_finished shown in
  table_widget ready = table_widget shown
  /\ copy_button ready = copy_button shown
  /\ save_action ready = save_action shown
  /\ copy_button ready = shows_all grant_chains_list
  /\ save_action ready = shows_all grant_chains_list
  /\ fetch_button ready = true
  /\ fetch_worker ready = None
  /\ (shows_all grant_chains_list = true ->
      table_widget ready = map Some grant_chains_list)
  /\ (shows_all grant_chains_list = false ->
      List.length (table_widget ready) <= 1).
Proof.
  destruct grant_chains_list as [|first rest]; cbn [populate_table shows_all].
  - cbn. repeat split; auto.
  - destruct (nonempty first) eqn:Hn; cbn [negb andb].
    + destruct (is_notice first) eqn:Hno; cbn [negb];
        unfold on_fetch_finished; cbn [table_widget copy_button save_action
                                        fetch_button fetch_worker map];
        rewrite ?Hno; cbn [negb List.length];
        repeat split; auto; discriminate.
    + cbn. repeat split; auto. discriminate.
Qed.

Lemma finished_agrees_with_populate_witness :
  table_widget (on_fetch_finished
                  (populate_table init ["ANALYST"; "ANALYST -> READER"]%string))
  = [Some "ANALYST"; Some "ANALYST -> READER"]%string.
Proof.
  apply (proj1 (proj2 (proj2 (proj2 (proj2 (proj2 (proj2 (proj2
           (finished_agrees_with_populate init
              ["ANALYST"; "ANALYST -> READER"]%string))))))))).
  reflexivity.
Defined.



Lemma start_with_ascii_methods (w : window) :
  start_fetch_data_with ascii_methods w = start_fetch_data w.
Proof. reflexivity. Qed.

(** X19.  The window never sends a name the route rejects.  Whatever is
    typed, a worker is started only for the input after [strip()], which
    is not empty; the route never answers 400 to it, and the name in the
    statement is that name after [strip()] and [upper()]: for ASCII
    input, the name that was sent, in upper case. *)
Theorem sent_name_is_never_rejected (m : str_methods) (w : window) (d : driver)
    (url user_name : string) :
  In (WorkerStarted url user_name) (snd (start_fetch_data_with m w)) ->
  user_name = str_strip m (user_name_input w)
  /\ user_name <> ""%string
  /\ snd (snd (get_role_hierarchy_route_with m d (Some user_name))) <> 400
  /\ (forall v ok,
         In {| call := Execute v; completed := ok |}
            (fst (get_role_hierarchy_route_with m d (Some user_name))) ->
         v = str_upper m (str_strip m user_name))
  /\ (agrees_on_ascii m ->
      ascii_only (user_name_input w) = true ->
      str_upper m (str_strip m user_name) = upper user_name).
Proof.
  unfold start_fetch_data_with.
  destruct (fetch_in_progress w); [intros []|].
  destruct (nonempty (str_strip m (user_name_input w))) eqn:Hn; cbn [negb snd].
  2:{ intros [H | []]. discriminate H. }
  intros [H | []]. injection H as _ <-.
  apply nonempty_iff in Hn. split; [reflexivity|]. split; [exact Hn|].
  split; [|split].
  - intros E.
    destruct (route_with_status m d _ Hn) as [H | [H | H]];
      rewrite E in H; discriminate.
  - intros v ok H. rewrite (route_with_trace m _ _ Hn) in H.
    now apply executed_parameter in H.
  - intros Hm Ha. rewrite (proj1 (Hm _ Ha)).
    rewrite (normalise_on_ascii m _ Hm (ascii_only_strip _ Ha)).
    now rewrite strip_idempotent.
Qed.

Lemma sent_name_is_never_rejected_witness :
  "alice"%string = strip " alice "
  /\ "alice"%string <> ""%string
  /\ snd (snd (get_role_hierarchy_route_with ascii_methods (healthy store_A)
                 (Some "alice"%string)))
     <> 400.
Proof.
  destruct (sent_name_is_never_rejected ascii_methods
              {| user_name_input := " alice ";
                 table_widget := [];
                 fetch_button := true;
                 copy_button := false;
                 save_action := false;
                 status_bar := [];
                 fetch_worker := None |}
              (healthy store_A)
              "http://127.0.0.1:5001/api/role-hierarchy" "alice"
              (or_introl eq_refl))
    as (H1 & H2 & H3 & _).
  split; [exact H1|]. split; [exact H2 | exact H3].
Defined.

(** X20.  Copying and saving take the same rows.  With at least one
    non-empty item in the table, the clipboard receives the non-empty
    item texts joined by line feeds, and a save that succeeds writes the
    same text followed by one line feed. *)
Theorem copy_and_save_agree (w : window) (stamp chosen : string) :
  item_texts (table_widget w) <> [] ->
  chosen <> ""%string ->
  exists default_filename,
    snd (copy_table_to_clipboard w)
    = [ClipboardSet (String.concat newline (item_texts (table_widget w)))]
    /\ snd (save_output_to_file w stamp chosen None)
       = [SaveDialog "Save Output As" default_filename;
          FileWritten chosen
            (String.concat newline (item_texts (table_widget w)) ++ newline)]
    /\ table_widget (fst (copy_table_to_clipboard w)) = table_widget w
    /\ table_widget (fst (save_output_to_file w stamp chosen None))
       = table_widget w.
Proof.
  intros Hne Hc. apply nonempty_iff in Hc.
  unfold copy_table_to_clipboard, save_output_to_file. rewrite Hc.
  rewrite <- (written_lines_concat _ Hne).
  destruct (table_widget w) as [|row rows] eqn:Et; [contradiction|].
  destruct (item_texts (row :: rows)) as [|a l] eqn:Ei; [contradiction|].
  cbn [snd fst table_widget]. eexists. repeat split; reflexivity.
Qed.

Lemma copy_and_save_agree_witness :
  exists default_filename,
    snd (copy_table_to_clipboard
           (populate_table init ["ANALYST"; "ANALYST -> READER"]%string))
    = [ClipboardSet
         (String.concat newline ["ANALYST"; "ANALYST -> READER"]%string)]
    /\ snd (save_output_to_file
              (populate_table init ["ANALYST"; "ANALYST -> READER"]%string)
              "20240131_090000" "out.txt" None)
       = [SaveDialog "Save Output As" default_filename;
          FileWritten "out.txt"
            (String.concat newline ["ANALYST"; "ANALYST -> READER"]%string
             ++ newline)]
    /\ table_widget (fst (copy_table_to_clipboard
                            (populate_table init
                               ["ANALYST"; "ANALYST -> READER"]%string)))
       = table_widget (populate_table init ["ANALYST"; "ANALYST -> READER"]%string)
    /\ table_widget (fst (save_output_to_file
                            (populate_table init
                               ["ANALYST"; "ANALYST -> READER"]%string)
                            "20240131_090000" "out.txt" None))
       = table_widget (populate_table init ["ANALYST"; "ANALYST -> READER"]%string).
Proof.
  apply (copy_and_save_agree
           (populate_table init ["ANALYST"; "ANALYST -> READER"]%string)
           "20240131_090000" "out.txt"); discriminate.
Defined.


Lemma start_with_name (w : window) :
  fetch_in_progress w = false ->
  strip (user_name_input w) <> ""%string ->
  start_fetch_data w
  = ({| user_name_input := user_name_input w;
        table_widget := [];
        fetch_button := false;
        copy_button := false;
        save_action := false;
        status_bar :=
          [Text "Fetching role hierarchy for '";
           Text (strip (user_name_input w)); Text "'..."];
        fetch_worker :=
          Some {| full_api_url := "http://127.0.0.1:5001/api/role-hierarchy";
                  params_user_name := strip (user_name_input w);
                  isRunning := true;
                  _is_running := true |} |},
     [WorkerStarted "http://127.0.0.1:5001/api/role-hierarchy"
        (strip (user_name_input w))]).
Proof.
  intros Hp Hn. apply nonempty_iff in Hn.
  unfold start_fetch_data. now rewrite Hp, Hn.
Qed.


(** X21.  Every round that completes leaves the window ready for the next
    click, whatever the worker received and whenever [stop] was called:
    the fetch button is enabled, the worker is forgotten, and copying and
    saving are enabled together, exactly when the table starts with an
    item that is no notice. *)
Theorem round_leaves_window_ready (w w' : window) (running : nat -> bool)
    (net : string -> get_result) (effects : list effect) :
  fetch_in_progress w = false ->
  strip (user_name_input w) <> ""%string ->
  fetch_round w running net = Some (w', effects) ->
  fetch_button w' = true
  /\ fetch_worker w' = None
  /\ save_action w' = copy_button w'
  /\ (copy_button w' = true <->
      exists text rest,
        table_widget w' = Some text :: rest /\ is_notice text = false).
Proof.
  intros Hp Hn. unfold fetch_round. rewrite (start_with_name w Hp Hn).
  destruct (run running (net (strip (user_name_input w)))) as [signals [|e]];
    [|discriminate].
  unfold worker_done. destruct (deliver_all _ signals) as [[w1 effects1]|];
    [|discriminate].
  intros H. injection H as <- _.
  unfold on_fetch_finished.
  cbn [fetch_button fetch_worker save_action copy_button table_widget].
  repeat split; auto.
  - destruct (table_widget w1) as [|[text|] rest]; try discriminate.
    intros H. exists text, rest. split; [reflexivity|].
    now destruct (is_notice text).
  - intros (text & rest & -> & Hno). now rewrite Hno.
Qed.

Lemma round_leaves_window_ready_witness :
  exists w' effects,
    fetch_round
      {| user_name_input := "alice";
         table_widget := [];
         fetch_button := true;
         copy_button := false;
         save_action := false;
         status_bar := [];
         fetch_worker := None |}
      stopped_in_flight (fun _ => GetResponse ok_with_paths)
    = Some (w', effects)
    /\ fetch_button w' = true
    /\ fetch_worker w' = None
    /\ save_action w' = copy_button w'
    /\ (copy_button w' = true <->
        exists text rest,
          table_widget w' = Some text :: rest /\ is_notice text = false).
Proof.
  eexists _, _. split; [reflexivity|].
  eapply (round_leaves_window_ready
            {| user_name_input := "alice";
               table_widget := [];
               fetch_button := true;
               copy_button := false;
               save_action := false;
               status_bar := [];
               fetch_worker := None |})
    with (running := stopped_in_flight)
         (net := fun _ => GetResponse ok_with_paths);
    [reflexivity | discriminate | reflexivity].
Defined.




End ClientResults.

(* ================================================================== *)
(** * Order of the answer and failed rounds *)

Section OrderAndFailure.

Import PyStr Backend Worker Wire Client Scenarios.

Lemma ascii_compare_refl (c : ascii) : Ascii.compare c c = Eq.
Proof.
  pose proof (Ascii.compare_antisym c c) as H.
  destruct (Ascii.compare c c); simpl in H; congruence.
Qed.

Lemma string_leb_prefix (s t : string) : (s <=? s ++ t)%string = true.
Proof.
  unfold String.leb. induction s as [|c s IH]; simpl.
  - now destruct t.
  - now rewrite ascii_compare_refl.
Qed.

Lemma string_app_longer (s t : string) : t <> ""%string -> s <> (s ++ t)%string.
Proof.
  intros Ht. induction s as [|c s IH]; simpl.
  - congruence.
  - intros H. injection H as H. auto.
Qed.

Lemma sorted_paths_before (l : list string) (a b : string) :
  sorted_paths l ->
  In a l -> In b l ->
  (a <=? b)%string = true -> a <> b ->
  exists l1 l2 l3, l = l1 ++ a :: l2 ++ b :: l3.
Proof.
  unfold sorted_paths. induction l as [|x l IH]; intros Hs Ha Hb Hle Hne;
    [contradiction|].
  inversion Hs as [|? ? Hs' Hx]; subst. rewrite Forall_forall in Hx.
  destruct Hb as [-> | Hb].
  - destruct Ha as [-> | Ha]; [congruence|].
    exfalso. apply Hne. apply String.leb_antisym; auto.
  - destruct Ha as [-> | Ha].
    + apply in_split in Hb. destruct Hb as (l2 & l3 & ->).
      now exists [], l2, l3.
    + destruct (IH Hs' Ha Hb Hle Hne) as (l1 & l2 & l3 & ->).
      now exists (x :: l1), l2, l3.
Qed.

(** X23.  Parents come first.  In the fetched list, the path string of
    every row above level 0 is preceded by the path string of its
    parent. *)
Theorem parent_listed_before_child (st : grant_store) (p : string) (r : urh_row) :
  In r (user_role_hierarchy st p) ->
  0 < level r ->
  exists u l1 l2 l3,
    In u (user_role_hierarchy st p)
    /\ child_of st u r
    /\ map row_4 (cte_query st p)
       = l1 ++ path_string u :: l2 ++ path_string r :: l3.
Proof.
  intros Hr Hl.
  destruct (hierarchy_origin st p r Hr) as [Ha | (u & Hu & Hc)].
  { apply anchor_level in Ha. lia. }
  pose proof (child_path st u r Hc) as Hp.
  destruct (sorted_paths_before (map row_4 (cte_query st p))
              (path_string u) (path_string r)) as (l1 & l2 & l3 & E).
  - apply cte_query_sorted.
  - apply emitted_path. eauto.
  - apply emitted_path. eauto.
  - rewrite Hp. apply string_leb_prefix.
  - rewrite Hp. apply string_app_longer. discriminate.
  - exists u, l1, l2, l3. auto.
Qed.

Lemma parent_listed_before_child_witness :
  exists r u l1 l2 l3,
    In u (user_role_hierarchy store_A "ALICE")
    /\ child_of store_A u r
    /\ map row_4 (cte_query store_A "ALICE")
       = l1 ++ path_string u :: l2 ++ path_string r :: l3.
Proof.
  exists (recursive_select
            {| gtr_GRANTEE_NAME := "ANALYST"; gtr_NAME := "READER";
               gtr_PRIVILEGE := "USAGE"; gtr_GRANTED_ON := "ROLE";
               gtr_DELETED_ON := None |}
            (anchor_select
               {| gtu_GRANTEE_NAME := "ALICE"; gtu_ROLE := "ANALYST";
                  gtu_DELETED_ON := None |})).
  apply (parent_listed_before_child store_A "ALICE").
  - vm_compute. tauto.
  - vm_compute. lia.
Defined.




End OrderAndFailure.
